(** * AmeriDocs link checker: a shallow embedding of [check_links.py]

    The development follows the layout of the script:
    - configuration constants;
    - [is_external], the filter on raw references;
    - [check_one_url], the HEAD-then-GET probe with its retry loop;
    - [check_all_links], the coordinator that fans failing outcomes out to
      the pages that reference them;
    - [main], which builds the link map, sorts the rows and computes the
      summary and the exit code.

    The network (aiohttp) is the environment: it is an oracle that answers a
    request given the history of what the probe did so far.  Every request,
    pause and semaphore operation of a probe is recorded in an event log, so
    that statements about "how many attempts" are statements about the log. *)

From Stdlib Require Import List String Ascii ZArith Bool Lia.
From Stdlib Require Import Permutation Sorted.
Import ListNotations.

Local Open Scope string_scope.
Local Open Scope Z_scope.
Local Open Scope list_scope.

(** ** Configuration *)

Definition CONCURRENCY : Z := 20.
Definition TIMEOUT_SECONDS : Z := 30.
Definition RETRY_COUNT : Z := 1.

(** ** External-reference filter *)

(** [str.startswith]. *)
Definition startswith (s p : string) : bool := String.prefix p s.

Definition is_external (url : string) : bool :=
  startswith url "http://" || startswith url "https://".

(** ** The environment of a probe *)

Inductive Method : Type := HEAD | GET.

(** The exception classes the handlers of [check_one_url] tell apart.
    [ClientConnectorError] is a subclass of both [aiohttp.ClientError] and
    [OSError]; [ClientError] stands for every other [aiohttp.ClientError];
    [OtherException] stands for a class outside the three hierarchies
    (a [ValueError], a [RuntimeError], a cancellation, ...). *)
Inductive ExcClass : Type :=
  | TimeoutError
  | ClientConnectorError
  | ClientError
  | OSError
  | OtherException.

(** An exception value: its class and [str(e)]. *)
Record Exception : Type := mkExc { exc_class : ExcClass; exc_str : string }.

(** [resp.status] and [resp.reason] (which aiohttp types as optional). *)
Record Response : Type := mkResp { resp_status : Z; resp_reason : option string }.

Inductive Reply : Type :=
  | Responds (resp : Response)
  | Raises (e : Exception).

(** What a probe does, in the order it does it. *)
Inductive Event : Type :=
  | Acquire
  | Release
  | Request (m : Method) (url : string)
  | Sleep (secs : Z).

(** The network answers a request from the history of the probe. *)
Definition Network : Type := list Event -> Method -> string -> Reply.

(** [isinstance] tests used by the [except] clauses. *)
Definition is_TimeoutError (e : Exception) : bool :=
  match exc_class e with TimeoutError => true | _ => false end.

Definition is_ClientConnectorError (e : Exception) : bool :=
  match exc_class e with ClientConnectorError => true | _ => false end.

Definition is_ClientError (e : Exception) : bool :=
  match exc_class e with ClientConnectorError | ClientError => true | _ => false end.

Definition is_OSError (e : Exception) : bool :=
  match exc_class e with ClientConnectorError | OSError => true | _ => false end.

(** ** Results *)

Inductive Result (A : Type) : Type :=
  | Returned (a : A)
  | Raised (e : Exception).
Arguments Returned {A} a.
Arguments Raised {A} e.

(** [(status_code: int|None, reason: str)]. *)
Definition Outcome : Type := (option Z * string)%type.

(** Python's [reason or default]: [None] and the empty string are falsy. *)
Definition or_default (reason : option string) (default : string) : string :=
  match reason with
  | Some s => if (s =? EmptyString)%string then default else s
  | None => default
  end.

(** ** [check_one_url] *)

(** [session.head] / [session.get]: the request is logged, the network
    answers from the history before it. *)
Definition send (net : Network) (m : Method) (url : string) (log : list Event)
  : Reply * list Event :=
  (net log m url, log ++ [Request m url]).

(** How the first [try] block ends. *)
Inductive HeadStep : Type :=
  | HeadReturn (o : Outcome)
  | HeadPass
  | HeadPropagate (e : Exception).

Definition head_phase (net : Network) (url : string) (log : list Event)
  : HeadStep * list Event :=
  let '(reply, log) := send net HEAD url log in
  let body : Outcome + Exception :=
    match reply with
    | Responds resp =>
        if resp_status resp <? 400 then inl (Some (resp_status resp), "OK")
        else if resp_status resp =? 405 then inr (mkExc ClientError "HEAD not allowed")
        else inl (Some (resp_status resp), or_default (resp_reason resp) "Error")
    | Raises e => inr e
    end in
  match body with
  | inl o => (HeadReturn o, log)
  | inr e =>
      (* except (aiohttp.ClientError, asyncio.TimeoutError, OSError): pass *)
      if is_ClientError e || is_TimeoutError e || is_OSError e
      then (HeadPass, log)
      else (HeadPropagate e, log)
  end.

(** How the second [try] block ends. *)
Inductive GetStep : Type :=
  | GetReturn (o : Outcome)
  | GetContinue
  | GetPropagate (e : Exception).

(** The body shared by the four handlers of the second [try]. *)
Definition retry_or (attempt retries : Z) (reason : string) (log : list Event)
  : GetStep * list Event :=
  if attempt <? retries
  then (GetContinue, log ++ [Sleep 2])
  else (GetReturn (None, reason), log).

Definition get_phase (net : Network) (url : string) (attempt retries : Z)
    (log : list Event) : GetStep * list Event :=
  let '(reply, log) := send net GET url log in
  match reply with
  | Responds resp =>
      (GetReturn (Some (resp_status resp),
                  or_default (resp_reason resp)
                    (if resp_status resp <? 400 then "OK" else "Error")), log)
  | Raises e =>
      if is_TimeoutError e then retry_or attempt retries "Timeout" log
      else if is_ClientConnectorError e then
        retry_or attempt retries "Connection failed" log
      else if is_ClientError e then
        retry_or attempt retries ("Client error: " ++ exc_str e)%string log
      else if is_OSError e then
        retry_or attempt retries ("OS error: " ++ exc_str e)%string log
      else (GetPropagate e, log)
  end.

(** How the [for] loop ends: by a [return], by an exception that no handler
    matched, or by running out of iterations. *)
Inductive LoopExit : Type :=
  | LoopReturn (o : Outcome)
  | LoopRaise (e : Exception)
  | LoopExhausted.

(** [range(n)]. *)
Definition range (n : Z) : list Z := map Z.of_nat (seq 0 (Z.to_nat n)).

(** [for attempt in attempts: ...] *)
Fixpoint attempt_loop (net : Network) (url : string) (retries : Z)
    (attempts : list Z) (log : list Event) : LoopExit * list Event :=
  match attempts with
  | [] => (LoopExhausted, log)
  | attempt :: rest =>
      match head_phase net url log with
      | (HeadReturn o, log) => (LoopReturn o, log)
      | (HeadPropagate e, log) => (LoopRaise e, log)
      | (HeadPass, log) =>
          match get_phase net url attempt retries log with
          | (GetReturn o, log) => (LoopReturn o, log)
          | (GetPropagate e, log) => (LoopRaise e, log)
          | (GetContinue, log) => attempt_loop net url retries rest log
          end
      end
  end.

(** The loop as [check_one_url] runs it, inside [async with semaphore]. *)
Definition run_attempts (net : Network) (url : string) (retries : Z)
  : LoopExit * list Event :=
  attempt_loop net url retries (range (1 + retries)) [Acquire].

Definition check_one_url (net : Network) (url : string) (retries : Z)
  : Result Outcome * list Event :=
  let '(exit, log) := run_attempts net url retries in
  let log := log ++ [Release] in
  match exit with
  | LoopReturn o => (Returned o, log)
  | LoopRaise e => (Raised e, log)
  | LoopExhausted => (Returned (None, "Unknown error"), log)
  end.

(** ** Sorting

    [sorted(...)] and [list.sort(key=...)] are stable comparison sorts; the
    model is a stable insertion sort over a boolean "less or equal". *)

Section Sorting.
Context {A : Type} (leb : A -> A -> bool).

Fixpoint insert_sorted (x : A) (l : list A) : list A :=
  match l with
  | [] => [x]
  | y :: l' => if leb x y then x :: y :: l' else y :: insert_sorted x l'
  end.

Fixpoint sorted (l : list A) : list A :=
  match l with
  | [] => []
  | x :: l' => insert_sorted x (sorted l')
  end.

End Sorting.

(** Python compares [(page, url)] tuples lexicographically, and strings by
    code point; on the UTF-8 bytes of a string that is the byte-wise order of
    [String.compare]. *)
Definition key_leb (a b : string * string) : bool :=
  match String.compare (fst a) (fst b) with
  | Lt => true
  | Eq => String.leb (snd a) (snd b)
  | Gt => false
  end.

(** ** The link map: [url -> set of filenames], in insertion order *)

Definition LinkMap : Type := list (string * list string).

(** [set.add]. *)
Fixpoint set_add (x : string) (s : list string) : list string :=
  match s with
  | [] => [x]
  | y :: s' => if (y =? x)%string then y :: s' else y :: set_add x s'
  end.

(** [link_map.setdefault(url, set()).add(fname)]. *)
Fixpoint setdefault_add (lm : LinkMap) (url fname : string) : LinkMap :=
  match lm with
  | [] => [(url, [fname])]
  | (k, pages) :: rest =>
      if (k =? url)%string then (k, set_add fname pages) :: rest
      else (k, pages) :: setdefault_add rest url fname
  end.

Definition keys (lm : LinkMap) : list string := map fst lm.

(** [link_map[url]]. *)
Fixpoint lookup (lm : LinkMap) (url : string) : option (list string) :=
  match lm with
  | [] => None
  | (k, pages) :: rest => if (k =? url)%string then Some pages else lookup rest url
  end.

(** ** [check_all_links] *)

(** A CSV cell is an integer or a string. *)
Inductive Cell : Type :=
  | IntCell (n : Z)
  | StrCell (s : string).

Record Row : Type := mkRow {
  row_page : string;
  row_url : string;
  row_status : Cell;
  row_reason : string
}.

(** [status if status is not None else "N/A"]. *)
Definition status_cell (status : option Z) : Cell :=
  match status with
  | Some code => IntCell code
  | None => StrCell "N/A"
  end.

(** [status is None or status >= 400]. *)
Definition is_failure (status : option Z) : bool :=
  match status with
  | None => true
  | Some code => 400 <=? code
  end.

Definition KeyError (key : string) : Exception := mkExc OtherException key.

(** The dict comprehension that starts one task per key of the link map.
    [probe url] is what the task of [url] ends with. *)
Definition create_tasks (probe : string -> Result Outcome) (urls : list string)
  : list (string * Result Outcome) :=
  map (fun url => (url, probe url)) urls.

(** [for url, task in tasks.items(): status, reason = await task ...]:
    awaiting a task that ended with an exception raises it here. *)
Fixpoint await_all (lm : LinkMap) (tasks : list (string * Result Outcome))
    (results : list Row) : Result (list Row) :=
  match tasks with
  | [] => Returned results
  | (url, task) :: rest =>
      match task with
      | Raised e => Raised e
      | Returned (status, reason) =>
          if is_failure status then
            match lookup lm url with
            | None => Raised (KeyError url)
            | Some pages =>
                await_all lm rest
                  (results ++
                   map (fun page => mkRow page url (status_cell status) reason)
                       (sorted String.leb pages))
            end
          else await_all lm rest results
      end
  end.

Definition check_all_links (probe : string -> Result Outcome) (link_map : LinkMap)
  : Result (list Row) :=
  let urls := keys link_map in
  let tasks := create_tasks probe urls in
  await_all link_map tasks [].

(** ** [main] *)

(** [str.endswith]. *)
Definition endswith (s suffix : string) : bool :=
  let n := String.length s in
  let k := String.length suffix in
  (k <=? n)%nat && (substring (n - k) k s =? suffix)%string.

(** Step 1: the sorted names of the HTML files of the directory listing. *)
Definition html_files (listdir : list string) : list string :=
  sorted String.leb (filter (fun f => endswith f ".html") listdir).

(** The body of [for url in external: ...]. *)
Definition add_page (fname : string) (external : list string) (lm : LinkMap)
  : LinkMap :=
  fold_left (fun lm url => setdefault_add lm url fname) external lm.

(** Step 2; [extract_links] is the HTML parser, applied to a file name. *)
Definition build_link_map (extract_links : string -> list string)
    (files : list string) : LinkMap :=
  fold_left
    (fun lm fname => add_page fname (filter is_external (extract_links fname)) lm)
    files [].

(** The sort key of step 4: [lambda r: (r["page"], r["url"])]. *)
Definition row_key (r : Row) : string * string := (row_page r, row_url r).

Definition row_leb (r1 r2 : Row) : bool := key_leb (row_key r1) (row_key r2).

(** What [main] hands to the reporter and to its caller. *)
Record Report : Type := mkReport {
  report_rows : list Row;
  broken_urls : nat;
  broken_refs : nat;
  exit_code : Z
}.

(** [listdir] is the directory listing, [probe url] what the task of [url]
    ends with. *)
Definition main (listdir : list string) (extract_links : string -> list string)
    (probe : string -> Result Outcome) : Result Report :=
  let link_map := build_link_map extract_links (html_files listdir) in
  match check_all_links probe link_map with
  | Raised e => Raised e
  | Returned results =>
      let results := sorted row_leb results in
      let broken := nodup string_dec (map row_url results) in
      Returned (mkReport results (List.length broken) (List.length results)
                         (match results with [] => 0 | _ :: _ => 1 end))
  end.

(** The task of a target over a given network, with the default retry count. *)
Definition probe_over (net : Network) (url : string) : Result Outcome :=
  fst (check_one_url net url RETRY_COUNT).

(** ** [LinkExtractor] and [extract_links]

    [HTMLParser.feed] tokenizes the document and calls [handle_starttag]
    once per start tag, with the attributes as (name, value) pairs whose
    value may be [None]; the tokenizer is the library's, the callback is the
    script's.  A document is taken as the sequence of its start tags. *)

Definition Attrs : Type := list (string * option string).

(** [for attr, value in attrs: if attr == "href" and value: links.append(value)]. *)
Fixpoint append_hrefs (attrs : Attrs) (links : list string) : list string :=
  match attrs with
  | [] => links
  | (attr, value) :: rest =>
      match value with
      | Some v =>
          if (attr =? "href")%string && negb (v =? EmptyString)%string
          then append_hrefs rest (links ++ [v])
          else append_hrefs rest links
      | None => append_hrefs rest links
      end
  end.

Definition handle_starttag (links : list string) (tag : string) (attrs : Attrs)
  : list string :=
  if (tag =? "a")%string then append_hrefs attrs links else links.

(** [parser.feed(content)] on a parser whose [links] are [links]. *)
Definition feed (start_tags : list (string * Attrs)) (links : list string)
  : list string :=
  fold_left (fun links t => handle_starttag links (fst t) (snd t)) start_tags links.

(** [extract_links], on the start tags of the file. *)
Definition extract_links_of (start_tags : list (string * Attrs)) : list string :=
  feed start_tags [].

(** ** The counts [main] prints before probing *)

(** [per_page_count]: the external references, page by page, repeats
    included. *)
Definition per_page_count (extract_links : string -> list string)
    (files : list string) : nat :=
  fold_left
    (fun n fname => (n + List.length (filter is_external (extract_links fname)))%nat)
    files 0%nat.

(** [unique = len(link_map)]. *)
Definition unique_count (extract_links : string -> list string)
    (files : list string) : nat :=
  List.length (build_link_map extract_links files).

(** ** Progress lines of [check_all_links]

    The loop of [check_all_links] with its counter [done] and what it
    prints: a pair [(done, total)] stands for the line
    ["Checked done/total unique URLs..."]. *)

Fixpoint await_all_printing (lm : LinkMap) (total : nat)
    (tasks : list (string * Result Outcome)) (done : nat) (results : list Row)
    (printed : list (nat * nat)) : Result (list Row) * list (nat * nat) :=
  match tasks with
  | [] => (Returned results, printed)
  | (url, task) :: rest =>
      match task with
      | Raised e => (Raised e, printed)
      | Returned (status, reason) =>
          let done := S done in
          let printed :=
            if ((done mod 50 =? 0) || (done =? total))%nat
            then printed ++ [(done, total)] else printed in
          if is_failure status then
            match lookup lm url with
            | None => (Raised (KeyError url), printed)
            | Some pages =>
                await_all_printing lm total rest done
                  (results ++
                   map (fun page => mkRow page url (status_cell status) reason)
                       (sorted String.leb pages))
                  printed
            end
          else await_all_printing lm total rest done results printed
      end
  end.

Definition check_all_links_printing (probe : string -> Result Outcome)
    (link_map : LinkMap) : Result (list Row) * list (nat * nat) :=
  let urls := keys link_map in
  let total := List.length urls in
  let tasks := create_tasks probe urls in
  await_all_printing link_map total tasks 0%nat [] [].

(** ** The text summary of [main] (step 5) *)

Inductive Line : Type :=
  | Rule
  | PageLine (page : string)
  | StatusLine (status : Cell) (reason : string)
  | UrlLine (url : string).

(** [for r in results: if r["page"] != current_page: ...]. *)
Fixpoint print_rows (current_page : option string) (rows : list Row) : list Line :=
  match rows with
  | [] => []
  | r :: rest =>
      let header :=
        match current_page with
        | Some page => if (row_page r =? page)%string then [] else [PageLine (row_page r)]
        | None => [PageLine (row_page r)]
        end in
      header ++ [StatusLine (row_status r) (row_reason r); UrlLine (row_url r)]
             ++ print_rows (Some (row_page r)) rest
  end.

(** [if results: ...]. *)
Definition text_summary (rows : list Row) : list Line :=
  match rows with
  | [] => []
  | _ :: _ => Rule :: print_rows None rows
  end.

(** The pages named by the page lines of a listing, in order. *)
Fixpoint page_lines (lines : list Line) : list string :=
  match lines with
  | [] => []
  | PageLine page :: rest => page :: page_lines rest
  | _ :: rest => page_lines rest
  end.

(** ** Vocabulary of the statements *)

(** The first [try] hands over to the second exactly on a 405 and on an
    exception of one of the three caught hierarchies. *)
Definition head_passes (reply : Reply) : Prop :=
  (exists reason, reply = Responds (mkResp 405 reason)) \/
  (exists e, reply = Raises e /\ exc_class e <> OtherException).

Definition is_request (m : Method) (e : Event) : bool :=
  match e, m with
  | Request HEAD _, HEAD | Request GET _, GET => true
  | _, _ => false
  end.

Definition is_sleep (e : Event) : bool :=
  match e with Sleep _ => true | _ => false end.

(** What a probe of [url] does while it holds its slot: requests for [url]
    and pauses of 2. *)
Definition probe_traffic (url : string) (e : Event) : Prop :=
  match e with
  | Request _ u => u = url
  | Sleep secs => secs = 2
  | Acquire | Release => False
  end.

(** The reason the handlers of the second [try] give for an exception. *)
Definition failure_reason (e : Exception) (why : string) : Prop :=
  (exc_class e = TimeoutError /\ why = "Timeout"%string) \/
  (exc_class e = ClientConnectorError /\ why = "Connection failed"%string) \/
  (exc_class e = ClientError /\ why = ("Client error: " ++ exc_str e)%string) \/
  (exc_class e = OSError /\ why = ("OS error: " ++ exc_str e)%string).

(** [page] is in the set stored under [url]. *)
Definition mentions (lm : LinkMap) (url page : string) : Prop :=
  exists pages, lookup lm url = Some pages /\ In page pages.

(** Keys are distinct and every stored set is a non-empty set. *)
Definition well_formed (lm : LinkMap) : Prop :=
  NoDup (keys lm) /\
  forall url pages, lookup lm url = Some pages -> NoDup pages /\ pages <> [].

(** The set stored under [url], empty when there is none. *)
Definition referrers (lm : LinkMap) (url : string) : list string :=
  match lookup lm url with Some pages => pages | None => [] end.

(** An HTML file of the directory holds an external reference to [url]. *)
Definition references (listdir : list string) (extract_links : string -> list string)
    (page url : string) : Prop :=
  In page listdir /\ endswith page ".html" = true /\
  In url (extract_links page) /\ is_external url = true.

(** The order of [(page, url)] keys, spelled out: the page is smaller, or
    the pages are equal and the url is not greater. *)
Definition key_le (a b : string * string) : Prop :=
  String.compare (fst a) (fst b) = Lt \/
  (fst a = fst b /\ String.compare (snd a) (snd b) <> Gt).

(** The rows one target contributes. *)
Definition records_for (lm : LinkMap) (outcome : string -> Outcome) (url : string)
  : list Row :=
  if is_failure (fst (outcome url)) then
    map (fun page => mkRow page url (status_cell (fst (outcome url))) (snd (outcome url)))
        (sorted String.leb (referrers lm url))
  else [].

(** ** Concrete inputs *)

Module Scenario.

(** The end-to-end scenario: two pages, one good and one bad target. *)
Definition listdir : list string := ["b.html"; "notes.txt"; "a.html"].

Definition extract_links (fname : string) : list string :=
  if (fname =? "a.html")%string then ["http://good.example"; "#top"]
  else if (fname =? "b.html")%string
       then ["http://good.example"; "http://bad.example"; "mailto:x@y"]
       else ["http://unread.example"].

Definition net : Network := fun _ _ url =>
  if (url =? "http://good.example")%string then Responds (mkResp 200 (Some "OK"))
  else Responds (mkResp 500 (Some "Internal Server Error")).

(** A server that answers every request with 404. *)
Definition not_found : Network := fun _ _ _ =>
  Responds (mkResp 404 (Some "Not Found")).

(** A server that never answers in time. *)
Definition unresponsive : Network := fun _ _ _ =>
  Raises (mkExc TimeoutError "timed out").

(** A host that refuses connections. *)
Definition refusing : Network := fun _ _ _ =>
  Raises (mkExc ClientConnectorError "Cannot connect to host").

(** A server that rejects HEAD and answers GET with 200 and no reason phrase. *)
Definition head_rejected : Network := fun _ m _ =>
  match m with
  | HEAD => Responds (mkResp 405 (Some "Method Not Allowed"))
  | GET => Responds (mkResp 200 None)
  end.

(** The same, with a reason phrase of the server's own on the 200. *)
Definition head_rejected_custom_reason : Network := fun _ m _ =>
  match m with
  | HEAD => Responds (mkResp 405 (Some "Method Not Allowed"))
  | GET => Responds (mkResp 200 (Some "Success"))
  end.

(** A server that drops HEAD requests and answers GET with a bare 503. *)
Definition refusing_head : Network := fun _ m _ =>
  match m with
  | HEAD => Raises (mkExc ClientError "Server disconnected")
  | GET => Responds (mkResp 503 None)
  end.

(** A client library that raises outside the caught hierarchies, as a
    [ValueError] on a redirect to a scheme it does not follow. *)
Definition bad_redirect_error : Exception :=
  mkExc OtherException "Can redirect only to http or https".

Definition bad_redirect : Network := fun _ _ url =>
  if (url =? "http://moved.example")%string then Raises bad_redirect_error
  else Responds (mkResp 200 (Some "OK")).

Definition two_links (fname : string) : list string :=
  ["http://fine.example"; "http://moved.example"].

(** A server that times out until the probe has paused once, then answers. *)
Definition flaky : Network := fun log m _ =>
  match m with
  | HEAD =>
      if existsb is_sleep log then Responds (mkResp 200 (Some "OK"))
      else Raises (mkExc TimeoutError "timed out")
  | GET => Raises (mkExc TimeoutError "timed out")
  end.

(** A page with relative links only. *)
Definition local_links (fname : string) : list string := ["#top"; "about.html"].

(** A server that times out until the probe has paused once; after that the
    client library raises outside the caught hierarchies. *)
Definition breaks_on_retry : Network := fun log _ _ =>
  if existsb is_sleep log then Raises bad_redirect_error
  else Raises (mkExc TimeoutError "timed out").

End Scenario.

(** ** Sanity checks on the concrete inputs *)

Example end_to_end :
  main Scenario.listdir Scenario.extract_links (probe_over Scenario.net) =
  Returned (mkReport
              [mkRow "b.html" "http://bad.example" (IntCell 500) "Internal Server Error"]
              1 1 1).
Proof. reflexivity. Qed.

Example good_probe :
  check_one_url Scenario.net "http://good.example" RETRY_COUNT =
  (Returned (Some 200, "OK"),
   [Acquire; Request HEAD "http://good.example"; Release]).
Proof. reflexivity. Qed.

Example link_map_built :
  build_link_map Scenario.extract_links (html_files Scenario.listdir) =
  [("http://good.example", ["a.html"; "b.html"]); ("http://bad.example", ["b.html"])].
Proof. reflexivity. Qed.

Example refused_twice :
  check_one_url Scenario.refusing "http://down.example" RETRY_COUNT =
  (Returned (None, "Connection failed"),
   [Acquire;
    Request HEAD "http://down.example"; Request GET "http://down.example"; Sleep 2;
    Request HEAD "http://down.example"; Request GET "http://down.example";
    Release]).
Proof. reflexivity. Qed.

(** * Proofs *)

(** ** The probe engine *)

Lemma range_unfold (n : Z) :
  0 <= n -> range (1 + n) = map Z.of_nat (seq 0 (S (Z.to_nat n))).
Proof.
  intros Hn. unfold range. f_equal. f_equal.
  rewrite Z2Nat.inj_add by lia. reflexivity.
Qed.

Lemma or_default_spec (reason : option string) (default : string) :
  (forall s, reason = Some s -> s <> EmptyString -> or_default reason default = s) /\
  (reason = None \/ reason = Some EmptyString -> or_default reason default = default).
Proof.
  split.
  - intros s -> Hs. unfold or_default.
    destruct (String.eqb_spec s EmptyString); [contradiction | reflexivity].
  - intros [-> | ->]; reflexivity.
Qed.

(** C1.  When the first HEAD request is answered with a code that is at
    least 400 and is not 405, [check_one_url] returns that code with the
    server's reason phrase (["Error"] when the phrase is missing or empty),
    and all it did was one HEAD request: no GET, no pause, no second attempt.
    A probe is issued at all only when [retries] is not negative. *)
Theorem definitive_head_response_is_terminal :
  forall (net : Network) (url : string) (retries code : Z) (reason : option string),
    0 <= retries ->
    net [Acquire] HEAD url = Responds (mkResp code reason) ->
    400 <= code -> code <> 405 ->
    exists why : string,
      check_one_url net url retries =
        (Returned (Some code, why), [Acquire; Request HEAD url; Release]) /\
      (forall s, reason = Some s -> s <> EmptyString -> why = s) /\
      (reason = None \/ reason = Some EmptyString -> why = "Error"%string).
Proof.
  intros net url retries code reason Hretries Hhead Hge Hne.
  exists (or_default reason "Error"). split; [| apply or_default_spec].
  unfold check_one_url, run_attempts.
  rewrite (range_unfold retries Hretries). cbn [seq map attempt_loop].
  unfold head_phase, send. rewrite Hhead. cbn [resp_status resp_reason].
  destruct (Z.ltb_spec code 400) as [Hlt | _]; [lia |].
  destruct (Z.eqb_spec code 405) as [Heq | _]; [contradiction |].
  reflexivity.
Qed.

(** A 404 on the HEAD request, with the default retry count. *)
Lemma not_found_after_one_attempt :
  0 <= RETRY_COUNT /\
  Scenario.not_found [Acquire] HEAD "http://gone.example" =
    Responds (mkResp 404 (Some "Not Found"%string)) /\
  exists why : string,
    check_one_url Scenario.not_found "http://gone.example" RETRY_COUNT =
      (Returned (Some 404, why),
       [Acquire; Request HEAD "http://gone.example"; Release]) /\
    (forall s, Some "Not Found"%string = Some s -> s <> EmptyString -> why = s) /\
    (Some "Not Found"%string = None \/ Some "Not Found"%string = Some EmptyString ->
     why = "Error"%string).
Proof.
  split; [unfold RETRY_COUNT; lia |]. split; [reflexivity |].
  apply (definitive_head_response_is_terminal
           Scenario.not_found "http://gone.example" RETRY_COUNT 404
           (Some "Not Found"%string)).
  - unfold RETRY_COUNT. lia.
  - reflexivity.
  - lia.
  - lia.
Defined.

Lemma head_phase_passes (net : Network) (url : string) (log : list Event) :
  head_passes (net log HEAD url) ->
  head_phase net url log = (HeadPass, log ++ [Request HEAD url]).
Proof.
  unfold head_phase, send.
  intros [[reason ->] | [e [-> Hclass]]].
  - reflexivity.
  - unfold is_ClientError, is_TimeoutError, is_OSError.
    destruct (exc_class e); try reflexivity. contradiction.
Qed.

Lemma get_phase_timeout (net : Network) (url : string) (attempt retries : Z)
    (log : list Event) (e : Exception) :
  net log GET url = Raises e -> exc_class e = TimeoutError ->
  get_phase net url attempt retries log =
    retry_or attempt retries "Timeout" (log ++ [Request GET url]).
Proof.
  intros Hget Hclass. unfold get_phase, send. rewrite Hget.
  unfold is_TimeoutError. rewrite Hclass. reflexivity.
Qed.

Section AlwaysTimeout.
Variables (net : Network) (url : string) (retries : Z).
Hypothesis Hhead : forall log, head_passes (net log HEAD url).
Hypothesis Hget :
  forall log, exists e, net log GET url = Raises e /\ exc_class e = TimeoutError.

(** With [m] attempts still to come after attempt [k], the loop runs [m]
    rounds that end in a pause and a last one that ends in the return. *)
Lemma timeout_loop (m k : nat) (log : list Event) :
  Z.of_nat k + Z.of_nat m = retries ->
  attempt_loop net url retries (map Z.of_nat (seq k (S m))) log =
    (LoopReturn (None, "Timeout"%string),
     log ++ List.concat (repeat [Request HEAD url; Request GET url; Sleep 2] m)
         ++ [Request HEAD url; Request GET url]).
Proof.
  revert k log. induction m as [| m IH]; intros k log Hk.
  - cbn [seq map attempt_loop].
    rewrite (head_phase_passes _ _ _ (Hhead log)).
    destruct (Hget (log ++ [Request HEAD url])) as [e [He Hclass]].
    rewrite (get_phase_timeout _ _ _ _ _ _ He Hclass).
    unfold retry_or. destruct (Z.ltb_spec (Z.of_nat k) retries) as [Hlt | _]; [lia |].
    cbn [repeat List.concat]. rewrite <- app_assoc. reflexivity.
  - change (seq k (S (S m))) with (k :: seq (S k) (S m)).
    cbn [map attempt_loop].
    rewrite (head_phase_passes _ _ _ (Hhead log)).
    destruct (Hget (log ++ [Request HEAD url])) as [e [He Hclass]].
    rewrite (get_phase_timeout _ _ _ _ _ _ He Hclass).
    unfold retry_or. destruct (Z.ltb_spec (Z.of_nat k) retries) as [_ | Hge]; [| lia].
    rewrite IH by lia. f_equal.
    cbn [repeat List.concat]. repeat rewrite <- app_assoc. reflexivity.
Qed.

End AlwaysTimeout.

Lemma filter_rounds (p : Event -> bool) (round : list Event) (n : nat) :
  filter p (List.concat (repeat round n)) = List.concat (repeat (filter p round) n).
Proof.
  induction n as [| n IH]; [reflexivity |].
  cbn [repeat List.concat]. rewrite filter_app, IH. reflexivity.
Qed.

Lemma length_concat_repeat {A} (l : list A) (n : nat) :
  List.length (List.concat (repeat l n)) = (n * List.length l)%nat.
Proof.
  induction n as [| n IH]; [reflexivity |].
  cbn [repeat List.concat]. rewrite length_app, IH. reflexivity.
Qed.

Lemma concat_repeat_singleton {A} (x : A) (n : nat) :
  List.concat (repeat [x] n) = repeat x n.
Proof. induction n as [| n IH]; [reflexivity |]. cbn. rewrite IH. reflexivity. Qed.

(** C2.  When every attempt ends in a timeout (the HEAD request never yields
    a terminal answer and the GET request always times out) and [retries] is
    not negative, [check_one_url] returns [(None, "Timeout")], and its log
    is: the slot taken, [retries] rounds of HEAD, GET and a pause of 2, a
    last round of HEAD and GET, the slot released.  So there are
    [1 + retries] HEAD requests, as many GET requests, and [retries] pauses,
    each of 2. *)
Theorem timeouts_exhaust_the_retries :
  forall (net : Network) (url : string) (retries : Z),
    0 <= retries ->
    (forall log, head_passes (net log HEAD url)) ->
    (forall log, exists e, net log GET url = Raises e /\ exc_class e = TimeoutError) ->
    let '(result, log) := check_one_url net url retries in
    result = Returned (None, "Timeout"%string) /\
    log = [Acquire]
          ++ List.concat (repeat [Request HEAD url; Request GET url; Sleep 2]
                                 (Z.to_nat retries))
          ++ [Request HEAD url; Request GET url; Release] /\
    Z.of_nat (List.length (filter (is_request HEAD) log)) = 1 + retries /\
    Z.of_nat (List.length (filter (is_request GET) log)) = 1 + retries /\
    filter is_sleep log = repeat (Sleep 2) (Z.to_nat retries).
Proof.
  intros net url retries Hretries Hhead Hget.
  unfold check_one_url, run_attempts.
  rewrite (range_unfold retries Hretries).
  rewrite (timeout_loop net url retries Hhead Hget (Z.to_nat retries) 0) by lia.
  repeat rewrite <- app_assoc. cbn [app].
  split; [reflexivity |]. split; [reflexivity |].
  repeat split.
  - cbn [filter is_request]. rewrite filter_app, filter_rounds.
    cbn [filter is_request]. rewrite length_app, length_concat_repeat.
    cbn [List.length]. lia.
  - cbn [filter is_request]. rewrite filter_app, filter_rounds.
    cbn [filter is_request]. rewrite length_app, length_concat_repeat.
    cbn [List.length]. lia.
  - cbn [filter is_sleep]. rewrite filter_app, filter_rounds.
    cbn [filter is_sleep]. rewrite app_nil_r. apply concat_repeat_singleton.
Qed.

(** The default retry count against a server that never answers in time:
    two attempts, one pause. *)
Lemma unresponsive_server_two_attempts :
  0 <= RETRY_COUNT /\
  (forall log, head_passes (Scenario.unresponsive log HEAD "http://slow.example")) /\
  (forall log, exists e,
      Scenario.unresponsive log GET "http://slow.example" = Raises e /\
      exc_class e = TimeoutError) /\
  let '(result, log) :=
    check_one_url Scenario.unresponsive "http://slow.example" RETRY_COUNT in
  result = Returned (None, "Timeout"%string) /\
  log = [Acquire]
        ++ List.concat (repeat [Request HEAD "http://slow.example";
                                Request GET "http://slow.example"; Sleep 2]
                               (Z.to_nat RETRY_COUNT))
        ++ [Request HEAD "http://slow.example"; Request GET "http://slow.example";
            Release] /\
  Z.of_nat (List.length (filter (is_request HEAD) log)) = 1 + RETRY_COUNT /\
  Z.of_nat (List.length (filter (is_request GET) log)) = 1 + RETRY_COUNT /\
  filter is_sleep log = repeat (Sleep 2) (Z.to_nat RETRY_COUNT).
Proof.
  assert (H0 : 0 <= RETRY_COUNT) by (unfold RETRY_COUNT; lia).
  assert (Hhead : forall log,
             head_passes (Scenario.unresponsive log HEAD "http://slow.example")).
  { intros log. right. eexists. split; [reflexivity | discriminate]. }
  assert (Hget : forall log, exists e,
             Scenario.unresponsive log GET "http://slow.example" = Raises e /\
             exc_class e = TimeoutError).
  { intros log. eexists. split; reflexivity. }
  split; [exact H0 |]. split; [exact Hhead |]. split; [exact Hget |].
  exact (timeouts_exhaust_the_retries
           Scenario.unresponsive "http://slow.example" RETRY_COUNT H0 Hhead Hget).
Defined.

(** A handler of the second [try] asks for another iteration only while
    [attempt < retries]. *)
Lemma retry_or_continue (attempt retries : Z) (reason : string)
    (log log' : list Event) :
  retry_or attempt retries reason log = (GetContinue, log') -> attempt < retries.
Proof.
  unfold retry_or. destruct (Z.ltb_spec attempt retries); [trivial | discriminate].
Qed.

Lemma get_phase_continue (net : Network) (url : string) (attempt retries : Z)
    (log log' : list Event) :
  get_phase net url attempt retries log = (GetContinue, log') -> attempt < retries.
Proof.
  unfold get_phase, send. destruct (net log GET url) as [resp | e]; [discriminate |].
  destruct (is_TimeoutError e); [apply retry_or_continue |].
  destruct (is_ClientConnectorError e); [apply retry_or_continue |].
  destruct (is_ClientError e); [apply retry_or_continue |].
  destruct (is_OSError e); [apply retry_or_continue | discriminate].
Qed.

(** The iteration whose index is [retries] cannot [continue], so the loop
    over [k, ..., retries] leaves by a [return] or by an exception. *)
Lemma loop_ends_by_last_attempt (net : Network) (url : string) (retries : Z)
    (m k : nat) (log : list Event) :
  Z.of_nat k + Z.of_nat m = retries ->
  fst (attempt_loop net url retries (map Z.of_nat (seq k (S m))) log) <> LoopExhausted.
Proof.
  revert k log. induction m as [| m IH]; intros k log Hk.
  - cbn [seq map attempt_loop].
    destruct (head_phase net url log) as [[o | | e] log1]; try discriminate.
    destruct (get_phase net url (Z.of_nat k) retries log1) as [[o | | e] log2] eqn:Hget;
      try discriminate.
    apply get_phase_continue in Hget. lia.
  - change (seq k (S (S m))) with (k :: seq (S k) (S m)).
    cbn [map attempt_loop].
    destruct (head_phase net url log) as [[o | | e] log1]; try discriminate.
    destruct (get_phase net url (Z.of_nat k) retries log1) as [[o | | e] log2];
      try discriminate.
    apply IH. lia.
Qed.

(** The precondition matters: with a negative retry count the loop body
    never runs and the defensive return is what the caller gets. *)
Lemma negative_retries_exhaust (net : Network) (url : string) (retries : Z) :
  retries < 0 ->
  check_one_url net url retries =
    (Returned (None, "Unknown error"%string), [Acquire; Release]).
Proof.
  intros Hneg. unfold check_one_url, run_attempts, range.
  replace (Z.to_nat (1 + retries)) with 0%nat by lia. reflexivity.
Qed.

(** C3, as amended.  When the first HEAD request is answered with 405 and
    the GET request that follows with 200, [check_one_url] returns 200 after
    one HEAD and one GET request, with no pause and no second attempt; the
    reason is the server's reason phrase for the 200, and ["OK"] when the
    phrase is missing or empty. *)
Theorem escalation_stays_in_the_attempt :
  forall (net : Network) (url : string) (retries : Z)
         (head_reason get_reason : option string),
    0 <= retries ->
    net [Acquire] HEAD url = Responds (mkResp 405 head_reason) ->
    net [Acquire; Request HEAD url] GET url = Responds (mkResp 200 get_reason) ->
    exists why : string,
      check_one_url net url retries =
        (Returned (Some 200, why),
         [Acquire; Request HEAD url; Request GET url; Release]) /\
      (forall s, get_reason = Some s -> s <> EmptyString -> why = s) /\
      (get_reason = None \/ get_reason = Some EmptyString -> why = "OK"%string).
Proof.
  intros net url retries head_reason get_reason Hretries Hhead Hget.
  exists (or_default get_reason "OK"). split; [| apply or_default_spec].
  unfold check_one_url, run_attempts.
  rewrite (range_unfold retries Hretries). cbn [seq map attempt_loop].
  unfold head_phase, send. rewrite Hhead. cbn.
  unfold get_phase, send. cbn. rewrite Hget. reflexivity.
Qed.

Lemma escalation_without_reason_phrase :
  0 <= RETRY_COUNT /\
  Scenario.head_rejected [Acquire] HEAD "http://picky.example" =
    Responds (mkResp 405 (Some "Method Not Allowed"%string)) /\
  Scenario.head_rejected [Acquire; Request HEAD "http://picky.example"] GET
    "http://picky.example" = Responds (mkResp 200 None) /\
  exists why : string,
    check_one_url Scenario.head_rejected "http://picky.example" RETRY_COUNT =
      (Returned (Some 200, why),
       [Acquire; Request HEAD "http://picky.example";
        Request GET "http://picky.example"; Release]) /\
    (forall s, @None string = Some s -> s <> EmptyString -> why = s) /\
    (@None string = None \/ @None string = Some EmptyString -> why = "OK"%string).
Proof.
  split; [unfold RETRY_COUNT; lia |]. split; [reflexivity |]. split; [reflexivity |].
  apply (escalation_stays_in_the_attempt
           Scenario.head_rejected "http://picky.example" RETRY_COUNT
           (Some "Method Not Allowed"%string) None).
  - unfold RETRY_COUNT. lia.
  - reflexivity.
  - reflexivity.
Defined.

(** C3, as stated, fails: a 405 on HEAD followed by a 200 on GET whose
    reason phrase is ["Success"] gives the reason ["Success"], not ["OK"]. *)
Lemma escalation_reason_is_the_servers :
  Scenario.head_rejected_custom_reason [Acquire] HEAD "http://picky.example" =
    Responds (mkResp 405 (Some "Method Not Allowed"%string)) /\
  Scenario.head_rejected_custom_reason
    [Acquire; Request HEAD "http://picky.example"] GET "http://picky.example" =
    Responds (mkResp 200 (Some "Success"%string)) /\
  check_one_url Scenario.head_rejected_custom_reason "http://picky.example"
    RETRY_COUNT =
    (Returned (Some 200, "Success"%string),
     [Acquire; Request HEAD "http://picky.example";
      Request GET "http://picky.example"; Release]) /\
  fst (check_one_url Scenario.head_rejected_custom_reason "http://picky.example"
         RETRY_COUNT) <> Returned (Some 200, "OK"%string).
Proof.
  split; [reflexivity |]. split; [reflexivity |]. split; [reflexivity |].
  cbn. intros H. discriminate H.
Qed.

(** The loop raises only what the network raised outside the caught
    hierarchies. *)
Lemma only_uncaught_classes_propagate (net : Network) (url : string)
    (attempts : list Z) (retries : Z) (log : list Event) :
  (forall h m e, net h m url = Raises e -> exc_class e <> OtherException) ->
  forall e, fst (attempt_loop net url retries attempts log) <> LoopRaise e.
Proof.
  intros Hnet. revert log. induction attempts as [| attempt rest IH]; intros log e.
  - discriminate.
  - cbn [attempt_loop].
    destruct (head_phase net url log) as [[o | | e1] log1] eqn:Hhead; try discriminate.
    + destruct (get_phase net url attempt retries log1) as [[o | | e2] log2] eqn:Hget;
        try discriminate.
      * apply IH.
      * exfalso. revert Hget. unfold get_phase, send.
        destruct (net log1 GET url) as [resp | e3] eqn:Hreply; [discriminate |].
        apply Hnet in Hreply.
        unfold is_TimeoutError, is_ClientConnectorError, is_ClientError, is_OSError,
          retry_or.
        destruct (exc_class e3); try contradiction;
          destruct (attempt <? retries); discriminate.
    + exfalso. revert Hhead. unfold head_phase, send.
      destruct (net log HEAD url) as [resp | e3] eqn:Hreply.
      * destruct (resp_status resp <? 400); [discriminate |].
        destruct (resp_status resp =? 405); discriminate.
      * apply Hnet in Hreply.
        unfold is_TimeoutError, is_ClientError, is_OSError.
        destruct (exc_class e3); try contradiction; discriminate.
Qed.

Lemma check_one_url_returns (net : Network) (url : string) (retries : Z) :
  (forall h m e, net h m url = Raises e -> exc_class e <> OtherException) ->
  exists o, fst (check_one_url net url retries) = Returned o.
Proof.
  intros Hnet. unfold check_one_url.
  pose proof (only_uncaught_classes_propagate net url (range (1 + retries)) retries
                [Acquire] Hnet) as Hraise.
  unfold run_attempts.
  destruct (attempt_loop net url retries (range (1 + retries)) [Acquire])
    as [[o | e | ] log]; cbn [fst] in *.
  - exists o. reflexivity.
  - exfalso. apply (Hraise e). reflexivity.
  - eexists. reflexivity.
Qed.

(** The loop only adds requests for its target and pauses of 2 to the log. *)
Lemma attempt_loop_traffic (net : Network) (url : string) (retries : Z)
    (attempts : list Z) (log : list Event) :
  exists added,
    snd (attempt_loop net url retries attempts log) = log ++ added /\
    Forall (probe_traffic url) added.
Proof.
  revert log. induction attempts as [| attempt rest IH]; intros log.
  - exists []. rewrite app_nil_r. split; [reflexivity | constructor].
  - cbn [attempt_loop].
    assert (Hhead : snd (head_phase net url log) = log ++ [Request HEAD url]).
    { unfold head_phase, send. destruct (net log HEAD url) as [resp | e].
      - destruct (resp_status resp <? 400); [reflexivity |].
        destruct (resp_status resp =? 405); reflexivity.
      - destruct (is_ClientError e || is_TimeoutError e || is_OSError e); reflexivity. }
    destruct (head_phase net url log) as [[o | | e] log1]; cbn [snd] in Hhead; subst log1;
      try (exists [Request HEAD url]; split;
           [reflexivity | repeat constructor]).
    assert (Hget : exists tail,
               snd (get_phase net url attempt retries (log ++ [Request HEAD url])) =
                 (log ++ [Request HEAD url]) ++ Request GET url :: tail /\
               Forall (probe_traffic url) tail /\
               (tail <> [] ->
                fst (get_phase net url attempt retries (log ++ [Request HEAD url])) =
                  GetContinue)).
    { unfold get_phase, send, retry_or.
      destruct (net (log ++ [Request HEAD url]) GET url) as [resp | e].
      - exists []. cbn. split; [reflexivity |]. split; [constructor | congruence].
      - destruct (is_TimeoutError e), (is_ClientConnectorError e), (is_ClientError e),
          (is_OSError e), (attempt <? retries); cbn [fst snd];
          first [ exists [Sleep 2]; rewrite <- app_assoc;
                  split; [reflexivity |]; split; [repeat constructor | reflexivity]
                | exists []; split; [reflexivity |]; split; [constructor | congruence] ]. }
    destruct Hget as [tail [Hlog [Htail _]]].
    destruct (get_phase net url attempt retries (log ++ [Request HEAD url]))
      as [[o | | e] log2]; cbn [snd] in Hlog; subst log2;
      try (exists (Request HEAD url :: Request GET url :: tail);
           split; [rewrite <- app_assoc; reflexivity
                  | constructor; [reflexivity |]; constructor; [reflexivity | exact Htail]]).
    destruct (IH ((log ++ [Request HEAD url]) ++ Request GET url :: tail))
      as [added [Hadded Hall]].
    exists (Request HEAD url :: Request GET url :: tail ++ added).
    split.
    + rewrite Hadded. repeat rewrite <- app_assoc. reflexivity.
    + constructor; [reflexivity |]. constructor; [reflexivity |].
      apply Forall_app. split; assumption.
Qed.

(** The concurrency slot is taken once, before the first request, and given
    back once, after the last: everything in between is the probe's own
    requests and pauses, retries included. *)
Theorem slot_held_across_attempts :
  forall (net : Network) (url : string) (retries : Z),
    exists traffic : list Event,
      snd (check_one_url net url retries) = [Acquire] ++ traffic ++ [Release] /\
      Forall (probe_traffic url) traffic.
Proof.
  intros net url retries. unfold check_one_url, run_attempts.
  destruct (attempt_loop_traffic net url retries (range (1 + retries)) [Acquire])
    as [traffic [Hlog Hall]].
  exists traffic. split; [| exact Hall].
  destruct (attempt_loop net url retries (range (1 + retries)) [Acquire])
    as [exit log]. cbn [snd] in Hlog. subst log.
  destruct exit; cbn [snd]; rewrite <- app_assoc; reflexivity.
Qed.

(** A HEAD answer below 400 ends the probe at once with the reason ["OK"],
    whatever reason phrase the server sent. *)
Theorem head_success_is_terminal :
  forall (net : Network) (url : string) (retries code : Z) (reason : option string),
    0 <= retries ->
    net [Acquire] HEAD url = Responds (mkResp code reason) ->
    code < 400 ->
    check_one_url net url retries =
      (Returned (Some code, "OK"%string), [Acquire; Request HEAD url; Release]).
Proof.
  intros net url retries code reason Hretries Hhead Hlt.
  unfold check_one_url, run_attempts.
  rewrite (range_unfold retries Hretries). cbn [seq map attempt_loop].
  unfold head_phase, send. rewrite Hhead. cbn [resp_status resp_reason].
  destruct (Z.ltb_spec code 400) as [_ | Hge]; [reflexivity | lia].
Qed.

Lemma reachable_target_is_ok :
  0 <= RETRY_COUNT /\
  Scenario.net [Acquire] HEAD "http://good.example" =
    Responds (mkResp 200 (Some "OK"%string)) /\
  200 < 400 /\
  check_one_url Scenario.net "http://good.example" RETRY_COUNT =
    (Returned (Some 200, "OK"%string),
     [Acquire; Request HEAD "http://good.example"; Release]).
Proof.
  split; [unfold RETRY_COUNT; lia |]. split; [reflexivity |]. split; [lia |].
  apply (head_success_is_terminal Scenario.net "http://good.example" RETRY_COUNT 200
           (Some "OK"%string)).
  - unfold RETRY_COUNT. lia.
  - reflexivity.
  - lia.
Defined.

(** When the first HEAD request falls through, any response to the GET
    request that follows is terminal: its code is the status, and the reason
    is the server's phrase, or ["OK"] below 400 and ["Error"] from 400 on
    when the phrase is missing or empty.  No pause, no second attempt. *)
Theorem fallback_response_is_terminal :
  forall (net : Network) (url : string) (retries code : Z) (reason : option string),
    0 <= retries ->
    head_passes (net [Acquire] HEAD url) ->
    net [Acquire; Request HEAD url] GET url = Responds (mkResp code reason) ->
    exists why : string,
      check_one_url net url retries =
        (Returned (Some code, why),
         [Acquire; Request HEAD url; Request GET url; Release]) /\
      (forall s, reason = Some s -> s <> EmptyString -> why = s) /\
      (reason = None \/ reason = Some EmptyString ->
       (code < 400 -> why = "OK"%string) /\ (400 <= code -> why = "Error"%string)).
Proof.
  intros net url retries code reason Hretries Hhead Hget.
  exists (or_default reason (if code <? 400 then "OK"%string else "Error"%string)).
  split; [| split].
  - unfold check_one_url, run_attempts.
    rewrite (range_unfold retries Hretries). cbn [seq map attempt_loop].
    rewrite (head_phase_passes net url [Acquire] Hhead). cbn [app].
    unfold get_phase, send. rewrite Hget. reflexivity.
  - apply or_default_spec.
  - intros Hnone.
    rewrite (proj2 (or_default_spec reason _) Hnone).
    destruct (Z.ltb_spec code 400); split; intros; first [reflexivity | lia].
Qed.

Lemma server_error_on_fallback :
  0 <= RETRY_COUNT /\
  head_passes (Scenario.refusing_head [Acquire] HEAD "http://broken.example") /\
  Scenario.refusing_head [Acquire; Request HEAD "http://broken.example"] GET
    "http://broken.example" = Responds (mkResp 503 None) /\
  exists why : string,
    check_one_url Scenario.refusing_head "http://broken.example" RETRY_COUNT =
      (Returned (Some 503, why),
       [Acquire; Request HEAD "http://broken.example";
        Request GET "http://broken.example"; Release]) /\
    (forall s, @None string = Some s -> s <> EmptyString -> why = s) /\
    (@None string = None \/ @None string = Some EmptyString ->
     (503 < 400 -> why = "OK"%string) /\ (400 <= 503 -> why = "Error"%string)).
Proof.
  assert (Hhead : head_passes
                    (Scenario.refusing_head [Acquire] HEAD "http://broken.example")).
  { right. eexists. split; [reflexivity | discriminate]. }
  split; [unfold RETRY_COUNT; lia |]. split; [exact Hhead |]. split; [reflexivity |].
  apply (fallback_response_is_terminal
           Scenario.refusing_head "http://broken.example" RETRY_COUNT 503 None).
  - unfold RETRY_COUNT. lia.
  - exact Hhead.
  - reflexivity.
Defined.

(** ** The filter on references *)

Lemma prefix_app (p s : string) :
  String.prefix p s = true <-> exists rest, s = (p ++ rest)%string.
Proof.
  revert s. induction p as [| a p IH]; intros s.
  - split; [intros _; exists s; reflexivity | intros _; destruct s; reflexivity].
  - destruct s as [| b s]; cbn [String.prefix String.append].
    + split; [discriminate | intros [rest H]; discriminate].
    + destruct (Ascii.ascii_dec a b) as [-> | Hne].
      * rewrite IH. split; intros [rest H]; exists rest; congruence.
      * split; [discriminate | intros [rest H]; congruence].
Qed.

(** ** The link map *)

(** *** Sets of file names *)

Lemma set_add_In (x y : string) (s : list string) :
  In y (set_add x s) <-> y = x \/ In y s.
Proof.
  induction s as [| z s IH]; cbn [set_add].
  - cbn. intuition congruence.
  - destruct (String.eqb_spec z x) as [-> | Hne]; cbn [In].
    + intuition congruence.
    + rewrite IH. intuition congruence.
Qed.

Lemma set_add_NoDup (x : string) (s : list string) :
  NoDup s -> NoDup (set_add x s).
Proof.
  induction 1 as [| z s Hz Hs IH]; cbn [set_add].
  - constructor; [intros [] | constructor].
  - destruct (String.eqb_spec z x) as [-> | Hne].
    + constructor; assumption.
    + constructor; [| assumption].
      rewrite set_add_In. intros [-> | Hin]; [congruence | contradiction].
Qed.

Lemma set_add_nonempty (x : string) (s : list string) : set_add x s <> [].
Proof. destruct s as [| z s]; cbn [set_add]; [| destruct (z =? x)%string]; discriminate. Qed.

(** *** Keys and stored sets *)

Lemma lookup_keys (lm : LinkMap) (url : string) :
  In url (keys lm) <-> exists pages, lookup lm url = Some pages.
Proof.
  induction lm as [| [k pages] lm IH]; cbn [keys map lookup In fst].
  - split; [intros [] | intros [pages H]; discriminate].
  - destruct (String.eqb_spec k url) as [-> | Hne].
    + split; [intros _; eexists; reflexivity | intros _; left; reflexivity].
    + fold (keys lm). rewrite IH. intuition congruence.
Qed.

Lemma lookup_setdefault_add_same (lm : LinkMap) (url fname : string) :
  lookup (setdefault_add lm url fname) url =
    Some (set_add fname (match lookup lm url with Some pages => pages | None => [] end)).
Proof.
  induction lm as [| [k pages] lm IH]; cbn [setdefault_add lookup].
  - rewrite String.eqb_refl. reflexivity.
  - destruct (String.eqb_spec k url) as [-> | Hne]; cbn [lookup].
    + rewrite String.eqb_refl. reflexivity.
    + destruct (String.eqb_spec k url); [contradiction | exact IH].
Qed.

Lemma lookup_setdefault_add_other (lm : LinkMap) (url fname url' : string) :
  url' <> url -> lookup (setdefault_add lm url fname) url' = lookup lm url'.
Proof.
  intros Hne. induction lm as [| [k pages] lm IH]; cbn [setdefault_add lookup].
  - destruct (String.eqb_spec url url'); [congruence | reflexivity].
  - destruct (String.eqb_spec k url) as [-> | Hk]; cbn [lookup].
    + destruct (String.eqb_spec url url'); [congruence | reflexivity].
    + rewrite IH. reflexivity.
Qed.

Lemma keys_setdefault_add (lm : LinkMap) (url fname : string) :
  keys (setdefault_add lm url fname) =
    if in_dec string_dec url (keys lm) then keys lm else keys lm ++ [url].
Proof.
  induction lm as [| [k pages] lm IH]; [reflexivity |].
  cbn [setdefault_add keys map fst]. fold (keys lm).
  destruct (String.eqb_spec k url) as [-> | Hne].
  - cbn [keys map fst]. fold (keys lm).
    destruct (in_dec string_dec url (url :: keys lm)) as [_ | Hnot];
      [reflexivity | exfalso; apply Hnot; left; reflexivity].
  - cbn [keys map fst]. fold (keys (setdefault_add lm url fname)). rewrite IH.
    destruct (in_dec string_dec url (keys lm)) as [Hin | Hnot];
      destruct (in_dec string_dec url (k :: keys lm)) as [Hin' | Hnot'];
      try reflexivity.
    + exfalso. apply Hnot'. right. exact Hin.
    + destruct Hin' as [-> | Hin']; contradiction.
Qed.

Lemma mentions_setdefault_add (lm : LinkMap) (url fname url' page : string) :
  mentions (setdefault_add lm url fname) url' page <->
  mentions lm url' page \/ (url' = url /\ page = fname).
Proof.
  unfold mentions. destruct (string_dec url' url) as [-> | Hne].
  - rewrite lookup_setdefault_add_same. split.
    + intros [pages [Hlk Hin]]. injection Hlk as <-.
      apply set_add_In in Hin. destruct Hin as [-> | Hin]; [right; split; reflexivity |].
      left. destruct (lookup lm url) as [pages |]; [| destruct Hin].
      exists pages. split; [reflexivity | exact Hin].
    + intros [[pages [Hlk Hin]] | [_ ->]]; eexists; (split; [reflexivity |]);
        apply set_add_In; [right | left; reflexivity].
      rewrite Hlk. exact Hin.
  - rewrite (lookup_setdefault_add_other lm url fname url' Hne). intuition congruence.
Qed.

Lemma well_formed_setdefault_add (lm : LinkMap) (url fname : string) :
  well_formed lm -> well_formed (setdefault_add lm url fname).
Proof.
  intros [Hkeys Hsets]. split.
  - rewrite keys_setdefault_add.
    destruct (in_dec string_dec url (keys lm)) as [Hin | Hnot]; [exact Hkeys |].
    apply NoDup_app; [exact Hkeys | constructor; [intros [] | constructor] |].
    intros x Hx [<- | []]. contradiction.
  - intros url' pages Hlk. destruct (string_dec url' url) as [-> | Hne].
    + rewrite lookup_setdefault_add_same in Hlk. injection Hlk as <-.
      split; [| apply set_add_nonempty]. apply set_add_NoDup.
      destruct (lookup lm url) as [pages |] eqn:Hold; [| constructor].
      apply (Hsets url pages Hold).
    + rewrite (lookup_setdefault_add_other lm url fname url' Hne) in Hlk.
      apply (Hsets url' pages Hlk).
Qed.

Lemma add_page_spec (fname : string) (external : list string) (lm : LinkMap) :
  (well_formed lm -> well_formed (add_page fname external lm)) /\
  forall url page,
    mentions (add_page fname external lm) url page <->
    mentions lm url page \/ (page = fname /\ In url external).
Proof.
  unfold add_page. revert lm.
  induction external as [| u external IH]; intros lm; cbn [fold_left].
  - split; [trivial |]. intros url page. cbn [In]. intuition.
  - destruct (IH (setdefault_add lm u fname)) as [IHwf IHm]. split.
    + intros Hwf. apply IHwf, well_formed_setdefault_add, Hwf.
    + intros url page. rewrite IHm, mentions_setdefault_add. cbn [In].
      intuition congruence.
Qed.

Section BuildLinkMap.
Variable extract_links : string -> list string.

Lemma fold_pages_spec (files : list string) (lm : LinkMap) :
  (well_formed lm ->
   well_formed
     (fold_left
        (fun lm fname => add_page fname (filter is_external (extract_links fname)) lm)
        files lm)) /\
  forall url page,
    mentions
      (fold_left
         (fun lm fname => add_page fname (filter is_external (extract_links fname)) lm)
         files lm) url page <->
    mentions lm url page \/
    (In page files /\ In url (extract_links page) /\ is_external url = true).
Proof.
  revert lm. induction files as [| f files IH]; intros lm; cbn [fold_left].
  - split; [trivial |]. intros url page. cbn [In]. intuition.
  - destruct (IH (add_page f (filter is_external (extract_links f)) lm))
      as [IHwf IHm].
    destruct (add_page_spec f (filter is_external (extract_links f)) lm) as [Hwf Hm].
    split.
    + intros H. apply IHwf, Hwf, H.
    + intros url page. rewrite IHm, Hm, filter_In. cbn [In].
      intuition (subst; auto).
Qed.

Lemma build_link_map_well_formed (files : list string) :
  well_formed (build_link_map extract_links files).
Proof.
  apply (fold_pages_spec files []). split; [constructor |].
  intros url pages H. discriminate.
Qed.

Lemma build_link_map_mentions (files : list string) (url page : string) :
  mentions (build_link_map extract_links files) url page <->
  In page files /\ In url (extract_links page) /\ is_external url = true.
Proof.
  unfold build_link_map.
  rewrite (proj2 (fold_pages_spec files []) url page).
  split; [| auto]. intros [[pages [H _]] | H]; [discriminate | exact H].
Qed.

End BuildLinkMap.

Lemma well_formed_key_mentioned (lm : LinkMap) (url : string) :
  well_formed lm -> (In url (keys lm) <-> exists page, mentions lm url page).
Proof.
  intros [_ Hsets]. rewrite lookup_keys. split.
  - intros [pages Hlk]. destruct (Hsets url pages Hlk) as [_ Hne].
    destruct pages as [| page pages]; [contradiction |].
    exists page, (page :: pages). split; [exact Hlk | left; reflexivity].
  - intros [page [pages [Hlk _]]]. exists pages. exact Hlk.
Qed.

(** ** Sorting and order *)

(** *** The sort *)

Section SortFacts.
Context {A : Type} (leb : A -> A -> bool).

Lemma insert_sorted_perm (x : A) (l : list A) :
  Permutation (insert_sorted leb x l) (x :: l).
Proof.
  induction l as [| y l IH]; cbn [insert_sorted]; [reflexivity |].
  destruct (leb x y); [reflexivity |].
  rewrite IH. apply perm_swap.
Qed.

Lemma sorted_perm (l : list A) : Permutation (sorted leb l) l.
Proof.
  induction l as [| x l IH]; cbn [sorted]; [reflexivity |].
  rewrite insert_sorted_perm. constructor. exact IH.
Qed.

Lemma sorted_In (l : list A) (x : A) : In x (sorted leb l) <-> In x l.
Proof.
  split; apply Permutation_in; [| symmetry]; apply sorted_perm.
Qed.

Lemma sorted_length (l : list A) : List.length (sorted leb l) = List.length l.
Proof. apply Permutation_length, sorted_perm. Qed.

Lemma sorted_NoDup (l : list A) : NoDup l -> NoDup (sorted leb l).
Proof. apply Permutation_NoDup. symmetry. apply sorted_perm. Qed.

Hypothesis leb_total : forall x y, leb x y = true \/ leb y x = true.
Hypothesis leb_trans : forall x y z, leb x y = true -> leb y z = true -> leb x z = true.

Lemma insert_sorted_ordered (x : A) (l : list A) :
  StronglySorted (fun x y => leb x y = true) l ->
  StronglySorted (fun x y => leb x y = true) (insert_sorted leb x l).
Proof.
  induction 1 as [| y l Hl IH Hy]; cbn [insert_sorted].
  - constructor; constructor.
  - destruct (leb x y) eqn:Hxy.
    + constructor; [constructor; assumption |].
      constructor; [exact Hxy |].
      rewrite Forall_forall in *. intros z Hz.
      apply (leb_trans x y z Hxy), Hy, Hz.
    + constructor; [exact IH |].
      rewrite Forall_forall in *. intros z Hz.
      apply (Permutation_in _ (insert_sorted_perm x l)) in Hz.
      destruct Hz as [<- | Hz]; [| apply Hy, Hz].
      destruct (leb_total x y) as [H | H]; [congruence | exact H].
Qed.

Lemma sorted_ordered (l : list A) : StronglySorted (fun x y => leb x y = true) (sorted leb l).
Proof.
  induction l as [| x l IH]; cbn [sorted]; [constructor |].
  apply insert_sorted_ordered, IH.
Qed.

(** Two ordered arrangements of the same elements coincide when the order
    is antisymmetric on them. *)
Lemma ordered_perm_unique (l1 l2 : list A) :
  (forall x y, In x l1 -> In y l1 -> leb x y = true -> leb y x = true -> x = y) ->
  StronglySorted (fun x y => leb x y = true) l1 ->
  StronglySorted (fun x y => leb x y = true) l2 ->
  Permutation l1 l2 -> l1 = l2.
Proof.
  revert l2. induction l1 as [| x l1 IH]; intros l2 Hanti H1 H2 Hperm.
  - apply Permutation_nil in Hperm. congruence.
  - destruct l2 as [| y l2].
    + symmetry in Hperm. apply Permutation_nil in Hperm. discriminate.
    + apply StronglySorted_inv in H1. destruct H1 as [H1 Hx].
      apply StronglySorted_inv in H2. destruct H2 as [H2 Hy].
      rewrite Forall_forall in Hx, Hy.
      assert (Hxy : x = y).
      { assert (Hxin : In x (y :: l2))
          by (apply (Permutation_in _ Hperm); left; reflexivity).
        assert (Hyin : In y (x :: l1))
          by (apply (Permutation_in _ (Permutation_sym Hperm)); left; reflexivity).
        destruct Hxin as [-> | Hxin]; [reflexivity |].
        destruct Hyin as [-> | Hyin]; [reflexivity |].
        apply Hanti; [left; reflexivity | right; exact Hyin | apply Hx, Hyin
                     | apply Hy, Hxin]. }
      subst y. f_equal. apply IH; [| assumption | assumption |].
      * intros a b Ha Hb. apply Hanti; right; assumption.
      * apply (Permutation_cons_inv Hperm).
Qed.

Lemma sorted_perm_invariant (l1 l2 : list A) :
  (forall x y, In x l1 -> In y l1 -> leb x y = true -> leb y x = true -> x = y) ->
  Permutation l1 l2 -> sorted leb l1 = sorted leb l2.
Proof.
  intros Hanti Hperm. apply ordered_perm_unique.
  - intros x y Hx Hy. apply Hanti; apply sorted_In; assumption.
  - apply sorted_ordered.
  - apply sorted_ordered.
  - rewrite !sorted_perm. exact Hperm.
Qed.
End SortFacts.

(** *** The order on strings and on [(page, url)] keys *)

Lemma ascii_compare_lt_trans (a b c : ascii) :
  Ascii.compare a b = Lt -> Ascii.compare b c = Lt -> Ascii.compare a c = Lt.
Proof.
  unfold Ascii.compare. rewrite !N.compare_lt_iff. apply N.lt_trans.
Qed.

Lemma string_compare_lt_trans (a b c : string) :
  String.compare a b = Lt -> String.compare b c = Lt -> String.compare a c = Lt.
Proof.
  revert b c. induction a as [| x a IH]; intros [| y b] [| z c];
    cbn [String.compare]; try discriminate; try reflexivity.
  destruct (Ascii.compare x y) eqn:Hxy; try discriminate;
    destruct (Ascii.compare y z) eqn:Hyz; try discriminate.
  - apply Ascii.compare_eq_iff in Hxy, Hyz. subst.
    rewrite (proj2 (N.compare_eq_iff _ _) eq_refl : Ascii.compare z z = Eq).
    apply IH.
  - apply Ascii.compare_eq_iff in Hxy. subst. rewrite Hyz. reflexivity.
  - apply Ascii.compare_eq_iff in Hyz. subst. rewrite Hxy. reflexivity.
  - rewrite (ascii_compare_lt_trans _ _ _ Hxy Hyz). reflexivity.
Qed.

Lemma string_compare_refl (a : string) : String.compare a a = Eq.
Proof.
  induction a as [| x a IH]; cbn [String.compare]; [reflexivity |].
  rewrite (proj2 (N.compare_eq_iff _ _) eq_refl : Ascii.compare x x = Eq). exact IH.
Qed.

Lemma string_leb_trans (a b c : string) :
  String.leb a b = true -> String.leb b c = true -> String.leb a c = true.
Proof.
  unfold String.leb.
  destruct (String.compare a b) eqn:Hab; try discriminate;
    destruct (String.compare b c) eqn:Hbc; try discriminate; intros _ _.
  - apply String.compare_eq_iff in Hab, Hbc. subst. rewrite string_compare_refl.
    reflexivity.
  - apply String.compare_eq_iff in Hab. subst. rewrite Hbc. reflexivity.
  - apply String.compare_eq_iff in Hbc. subst. rewrite Hab. reflexivity.
  - rewrite (string_compare_lt_trans _ _ _ Hab Hbc). reflexivity.
Qed.

Lemma key_leb_le (a b : string * string) : key_leb a b = true <-> key_le a b.
Proof.
  unfold key_leb, key_le, String.leb.
  destruct (String.compare (fst a) (fst b)) eqn:Hc.
  - apply String.compare_eq_iff in Hc.
    destruct (String.compare (snd a) (snd b)); intuition congruence.
  - intuition.
  - split; [discriminate |]. intros [H | [H _]]; [discriminate |].
    rewrite H, string_compare_refl in Hc. discriminate.
Qed.

Lemma key_leb_total (a b : string * string) :
  key_leb a b = true \/ key_leb b a = true.
Proof.
  unfold key_leb. rewrite (String.compare_antisym (fst b) (fst a)).
  destruct (String.compare (fst a) (fst b)); cbn [CompOpp]; auto.
  apply String.leb_total.
Qed.

Lemma key_leb_trans (a b c : string * string) :
  key_leb a b = true -> key_leb b c = true -> key_leb a c = true.
Proof.
  unfold key_leb.
  destruct (String.compare (fst a) (fst b)) eqn:Hab; try discriminate;
    destruct (String.compare (fst b) (fst c)) eqn:Hbc; try discriminate.
  - apply String.compare_eq_iff in Hab, Hbc. rewrite Hab, Hbc, string_compare_refl.
    apply string_leb_trans.
  - apply String.compare_eq_iff in Hab. rewrite Hab, Hbc. reflexivity.
  - apply String.compare_eq_iff in Hbc. rewrite <- Hbc, Hab. reflexivity.
  - rewrite (string_compare_lt_trans _ _ _ Hab Hbc). reflexivity.
Qed.

Lemma key_leb_antisym (a b : string * string) :
  key_leb a b = true -> key_leb b a = true -> a = b.
Proof.
  unfold key_leb. rewrite (String.compare_antisym (fst b) (fst a)).
  destruct (String.compare (fst a) (fst b)) eqn:Hab; cbn [CompOpp]; try discriminate.
  apply String.compare_eq_iff in Hab. intros H1 H2.
  destruct a, b; cbn [fst snd] in *. f_equal; [exact Hab |].
  apply String.leb_antisym; assumption.
Qed.

(** ** The coordinator *)

Lemma await_all_returns (lm : LinkMap) (outcome : string -> Outcome)
    (urls : list string) (results : list Row) :
  (forall url, In url urls -> In url (keys lm)) ->
  await_all lm (create_tasks (fun url => Returned (outcome url)) urls) results =
    Returned (results ++ flat_map (records_for lm outcome) urls).
Proof.
  revert results. induction urls as [| url urls IH]; intros results Hkeys.
  - cbn. rewrite app_nil_r. reflexivity.
  - cbn [create_tasks map await_all flat_map].
    fold (create_tasks (fun url => Returned (outcome url)) urls).
    unfold records_for at 1, referrers.
    destruct (outcome url) as [status reason]. cbn [fst snd].
    destruct (is_failure status).
    + destruct (proj1 (lookup_keys lm url) (Hkeys url (or_introl eq_refl)))
        as [pages ->].
      rewrite IH by (intros u Hu; apply Hkeys; right; exact Hu).
      rewrite <- app_assoc. reflexivity.
    + rewrite IH by (intros u Hu; apply Hkeys; right; exact Hu). reflexivity.
Qed.

Lemma check_all_links_returns (lm : LinkMap) (outcome : string -> Outcome) :
  check_all_links (fun url => Returned (outcome url)) lm =
    Returned (flat_map (records_for lm outcome) (keys lm)).
Proof.
  unfold check_all_links. rewrite await_all_returns by trivial. reflexivity.
Qed.

(** A task that raised is re-raised by the [await]. *)
Lemma await_all_result (lm : LinkMap) (probe : string -> Result Outcome)
    (urls : list string) (results : list Row) :
  (forall url, In url urls -> In url (keys lm)) ->
  match await_all lm (create_tasks probe urls) results with
  | Returned _ => forall url, In url urls -> exists o, probe url = Returned o
  | Raised e => exists url, In url urls /\ probe url = Raised e
  end.
Proof.
  revert results. induction urls as [| url urls IH]; intros results Hkeys.
  - cbn. intros url [].
  - cbn [create_tasks map await_all]. fold (create_tasks probe urls).
    assert (Hrest : forall u, In u urls -> In u (keys lm))
      by (intros u Hu; apply Hkeys; right; exact Hu).
    destruct (probe url) as [[status reason] | e] eqn:Hprobe.
    + assert (Hstep : forall acc,
                 match await_all lm (create_tasks probe urls) acc with
                 | Returned _ =>
                     forall u, In u (url :: urls) -> exists o, probe u = Returned o
                 | Raised e =>
                     exists u, In u (url :: urls) /\ probe u = Raised e
                 end).
      { intros acc. specialize (IH acc Hrest).
        destruct (await_all lm (create_tasks probe urls) acc) as [rows | e].
        - intros u [<- | Hu]; [eexists; exact Hprobe | apply IH, Hu].
        - destruct IH as [u [Hu He]]. exists u. split; [right; exact Hu | exact He]. }
      destruct (is_failure status); [| apply Hstep].
      destruct (proj1 (lookup_keys lm url) (Hkeys url (or_introl eq_refl)))
        as [pages ->].
      apply Hstep.
    + exists url. split; [left; reflexivity | exact Hprobe].
Qed.

Lemma NoDup_map_injective {A B} (f : A -> B) (l : list A) :
  (forall x y, f x = f y -> x = y) -> NoDup l -> NoDup (map f l).
Proof.
  intros Hinj. induction 1 as [| x l Hx Hl IH]; cbn [map]; constructor.
  - rewrite in_map_iff. intros [y [Hy Hin]]. apply Hinj in Hy. subst. contradiction.
  - exact IH.
Qed.

Lemma NoDup_flat_map {A B} (f : A -> list B) (g : B -> A) (l : list A) :
  NoDup l ->
  (forall a, In a l -> NoDup (f a)) ->
  (forall a b, In b (f a) -> g b = a) ->
  NoDup (flat_map f l).
Proof.
  intros Hl Hf Hg. induction Hl as [| a l Ha Hl IH]; cbn [flat_map]; [constructor |].
  apply NoDup_app.
  - apply Hf. left. reflexivity.
  - apply IH. intros a' Ha'. apply Hf. right. exact Ha'.
  - intros b Hb Hb'. apply in_flat_map in Hb'. destruct Hb' as [a' [Ha' Hb']].
    apply Hg in Hb, Hb'. subst. contradiction.
Qed.

Lemma records_for_In (lm : LinkMap) (outcome : string -> Outcome) (url : string)
    (row : Row) :
  In row (records_for lm outcome url) <->
  is_failure (fst (outcome url)) = true /\
  In (row_page row) (referrers lm url) /\
  row = mkRow (row_page row) url (status_cell (fst (outcome url))) (snd (outcome url)).
Proof.
  unfold records_for. destruct (is_failure (fst (outcome url))).
  - rewrite in_map_iff. split.
    + intros [page [<- Hin]]. apply sorted_In in Hin. auto.
    + intros [_ [Hin ->]]. exists (row_page row). cbn [row_page].
      split; [reflexivity | apply sorted_In; exact Hin].
  - split; [intros [] | intros [H _]; discriminate].
Qed.

Lemma records_for_url (lm : LinkMap) (outcome : string -> Outcome) (url : string)
    (row : Row) :
  In row (records_for lm outcome url) -> row_url row = url.
Proof. intros H. apply records_for_In in H. destruct H as [_ [_ ->]]. reflexivity. Qed.

Lemma referrers_mentions (lm : LinkMap) (url page : string) :
  In page (referrers lm url) <-> mentions lm url page.
Proof.
  unfold referrers, mentions. destruct (lookup lm url) as [pages |].
  - split; [intros H; exists pages; auto | intros [p [[= <-] H]]; exact H].
  - split; [intros [] | intros [p [H _]]; discriminate].
Qed.

Lemma well_formed_referrers (lm : LinkMap) (url : string) :
  well_formed lm -> NoDup (referrers lm url) /\
                    (In url (keys lm) -> referrers lm url <> []).
Proof.
  intros [_ Hsets]. unfold referrers.
  destruct (lookup lm url) as [pages |] eqn:Hlk.
  - destruct (Hsets url pages Hlk). auto.
  - split; [constructor |]. intros Hin. apply lookup_keys in Hin.
    destruct Hin as [pages H]. congruence.
Qed.

Lemma records_NoDup (lm : LinkMap) (outcome : string -> Outcome) :
  well_formed lm -> NoDup (flat_map (records_for lm outcome) (keys lm)).
Proof.
  intros Hwf. apply (NoDup_flat_map _ row_url).
  - apply Hwf.
  - intros url _. unfold records_for. destruct (is_failure (fst (outcome url)));
      [| constructor].
    apply NoDup_map_injective; [intros x y [= H]; exact H |].
    apply sorted_NoDup, well_formed_referrers, Hwf.
  - intros url row. apply records_for_url.
Qed.

Lemma html_files_In (listdir : list string) (page : string) :
  In page (html_files listdir) <-> In page listdir /\ endswith page ".html" = true.
Proof. unfold html_files. rewrite sorted_In, filter_In. reflexivity. Qed.

Lemma link_map_mentions (listdir : list string) (extract_links : string -> list string)
    (url page : string) :
  mentions (build_link_map extract_links (html_files listdir)) url page <->
  references listdir extract_links page url.
Proof.
  rewrite build_link_map_mentions, html_files_In. unfold references. tauto.
Qed.

Lemma is_failure_spec (status : option Z) :
  is_failure status = true <->
  status = None \/ exists code, status = Some code /\ 400 <= code.
Proof.
  destruct status as [code |]; cbn [is_failure].
  - rewrite Z.leb_le. split.
    + intros H. right. exists code. auto.
    + intros [H | [c [[= <-] H]]]; [discriminate | exact H].
  - split; auto.
Qed.

(** C4.  Over the link map [main] builds from the HTML files of a directory,
    one task is started per key: the started targets are pairwise distinct
    and are exactly the external references of the pages, however many pages
    hold them.  When every task returns its outcome, [check_all_links]
    returns a list without repetitions in which a row (page, url, status,
    reason) occurs exactly when the page references the url, the outcome of
    the url has no status or a status of at least 400, the reason is that
    outcome's and the status cell is the code, or ["N/A"] when there is
    none. *)
Theorem one_probe_per_target_one_record_per_page :
  forall (listdir : list string) (extract_links : string -> list string)
         (outcome : string -> Outcome),
    let link_map := build_link_map extract_links (html_files listdir) in
    let probe := fun url => Returned (outcome url) in
    let launched := map fst (create_tasks probe (keys link_map)) in
    NoDup launched /\
    (forall url,
        In url launched <-> exists page, references listdir extract_links page url) /\
    exists results : list Row,
      check_all_links probe link_map = Returned results /\
      NoDup results /\
      forall row : Row,
        In row results <->
        references listdir extract_links (row_page row) (row_url row) /\
        row_reason row = snd (outcome (row_url row)) /\
        ((fst (outcome (row_url row)) = None /\ row_status row = StrCell "N/A") \/
         (exists code, fst (outcome (row_url row)) = Some code /\ 400 <= code /\
                       row_status row = IntCell code)).
Proof.
  intros listdir extract_links outcome link_map probe launched.
  pose proof (build_link_map_well_formed extract_links (html_files listdir)) as Hwf.
  fold link_map in Hwf.
  assert (Hlaunched : launched = keys link_map).
  { unfold launched, create_tasks. rewrite map_map. apply map_id. }
  rewrite Hlaunched. split; [apply Hwf |]. split.
  - intros url. rewrite (well_formed_key_mentioned link_map url Hwf).
    split; intros [page H]; exists page; apply link_map_mentions; exact H.
  - exists (flat_map (records_for link_map outcome) (keys link_map)).
    split; [apply check_all_links_returns |].
    split; [apply records_NoDup, Hwf |].
    intros row. rewrite in_flat_map. split.
    + intros [url [Hkey Hrow]].
      pose proof (records_for_url _ _ _ _ Hrow) as Hurl. subst url.
      apply records_for_In in Hrow. destruct Hrow as [Hfail [Hpage Hrow]].
      apply referrers_mentions, link_map_mentions in Hpage.
      split; [exact Hpage |]. rewrite Hrow. cbn [row_reason row_status row_url].
      split; [reflexivity |].
      apply is_failure_spec in Hfail. destruct Hfail as [Hnone | [code [Hsome Hge]]].
      * left. rewrite Hnone. auto.
      * right. exists code. rewrite Hsome. auto.
    + intros [Href [Hreason Hstatus]]. exists (row_url row).
      apply link_map_mentions in Href. split.
      * apply (well_formed_key_mentioned link_map _ Hwf). eauto.
      * apply records_for_In. split; [| split].
        -- apply is_failure_spec.
           destruct Hstatus as [[H _] | [code [H [Hge _]]]]; eauto.
        -- apply referrers_mentions. exact Href.
        -- destruct row as [page url cell reason].
           cbn [row_page row_url row_reason row_status] in *.
           subst reason. f_equal.
           destruct Hstatus as [[H ->] | [code [H [_ ->]]]]; rewrite H; reflexivity.
Qed.

(** ** The report *)

Lemma StronglySorted_weaken {A} (P Q : A -> A -> Prop) (l : list A) :
  (forall x y, P x y -> Q x y) -> StronglySorted P l -> StronglySorted Q l.
Proof.
  intros HPQ. induction 1 as [| x l Hl IH Hx]; constructor; [exact IH |].
  rewrite Forall_forall in *. intros y Hy. apply HPQ, Hx, Hy.
Qed.

Lemma sorted_rows_ordered (rows : list Row) :
  StronglySorted (fun r1 r2 => key_le (row_key r1) (row_key r2)) (sorted row_leb rows).
Proof.
  apply (StronglySorted_weaken (fun r1 r2 => row_leb r1 r2 = true)).
  - intros r1 r2. apply key_leb_le.
  - apply sorted_ordered.
    + intros r1 r2. apply key_leb_total.
    + intros r1 r2 r3. apply key_leb_trans.
Qed.

(** A record is determined by its key. *)
Lemma records_key_injective (lm : LinkMap) (outcome : string -> Outcome)
    (r1 r2 : Row) :
  In r1 (flat_map (records_for lm outcome) (keys lm)) ->
  In r2 (flat_map (records_for lm outcome) (keys lm)) ->
  row_key r1 = row_key r2 -> r1 = r2.
Proof.
  rewrite !in_flat_map. intros [u1 [_ H1]] [u2 [_ H2]] Hkey.
  pose proof (records_for_url _ _ _ _ H1). pose proof (records_for_url _ _ _ _ H2).
  apply records_for_In in H1, H2.
  destruct H1 as [_ [_ H1]], H2 as [_ [_ H2]].
  injection Hkey as Hpage Hurl. subst u1 u2.
  rewrite H1, H2, Hpage, Hurl. reflexivity.
Qed.

Lemma records_length (lm : LinkMap) (outcome : string -> Outcome) (urls : list string) :
  List.length (flat_map (records_for lm outcome) urls) =
  list_sum (map (fun url => List.length (referrers lm url))
                (filter (fun url => is_failure (fst (outcome url))) urls)).
Proof.
  induction urls as [| url urls IH]; [reflexivity |].
  cbn [flat_map filter]. rewrite length_app, IH. unfold records_for at 1.
  destruct (is_failure (fst (outcome url))); cbn [map list_sum List.length].
  - rewrite length_map, sorted_length. reflexivity.
  - reflexivity.
Qed.

Lemma broken_urls_count (lm : LinkMap) (outcome : string -> Outcome) (rows : list Row) :
  well_formed lm ->
  Permutation rows (flat_map (records_for lm outcome) (keys lm)) ->
  List.length (nodup string_dec (map row_url rows)) =
  List.length (filter (fun url => is_failure (fst (outcome url))) (keys lm)).
Proof.
  intros Hwf Hperm. apply Permutation_length, NoDup_Permutation.
  - apply NoDup_nodup.
  - apply NoDup_filter, Hwf.
  - intros url. rewrite nodup_In, in_map_iff, filter_In. split.
    + intros [row [Hurl Hrow]]. apply (Permutation_in _ Hperm) in Hrow.
      apply in_flat_map in Hrow. destruct Hrow as [u [Hkey Hrow]].
      pose proof (records_for_url _ _ _ _ Hrow) as Hu.
      apply records_for_In in Hrow. destruct Hrow as [Hfail _].
      subst u. rewrite <- Hurl. auto.
    + intros [Hkey Hfail].
      destruct (well_formed_referrers lm url Hwf) as [_ Hne].
      specialize (Hne Hkey).
      destruct (referrers lm url) as [| page pages] eqn:Hrefs; [contradiction |].
      exists (mkRow page url (status_cell (fst (outcome url))) (snd (outcome url))).
      split; [reflexivity |].
      apply (Permutation_in _ (Permutation_sym Hperm)), in_flat_map.
      exists url. split; [exact Hkey |].
      apply records_for_In. cbn [row_page]. rewrite Hrefs.
      split; [exact Hfail |]. split; [left; reflexivity | reflexivity].
Qed.

(** C5.  When every task returns its outcome, [main] returns a report whose
    rows are the failure records of [check_all_links] rearranged in
    ascending order of (page, url); the order in which the records arrived
    does not matter, any rearrangement of them sorts to the same rows.
    [broken_urls] is the number of targets of the link map whose outcome is
    a failure, and [broken_refs] is the number of failure records, which is
    the sum over those targets of the number of pages that reference them. *)
Theorem report_is_sorted_and_counted :
  forall (listdir : list string) (extract_links : string -> list string)
         (outcome : string -> Outcome),
    let link_map := build_link_map extract_links (html_files listdir) in
    let probe := fun url => Returned (outcome url) in
    let failing := filter (fun url => is_failure (fst (outcome url))) (keys link_map) in
    exists (results : list Row) (report : Report),
      check_all_links probe link_map = Returned results /\
      main listdir extract_links probe = Returned report /\
      Permutation (report_rows report) results /\
      StronglySorted (fun r1 r2 => key_le (row_page r1, row_url r1)
                                          (row_page r2, row_url r2))
                     (report_rows report) /\
      (forall arrival : list Row,
          Permutation arrival results -> sorted row_leb arrival = report_rows report) /\
      broken_urls report = List.length failing /\
      broken_refs report = List.length results /\
      broken_refs report =
        list_sum (map (fun url => List.length (referrers link_map url)) failing).
Proof.
  intros listdir extract_links outcome link_map probe failing.
  pose proof (build_link_map_well_formed extract_links (html_files listdir)) as Hwf.
  fold link_map in Hwf.
  set (results := flat_map (records_for link_map outcome) (keys link_map)).
  assert (Hcheck : check_all_links probe link_map = Returned results)
    by apply check_all_links_returns.
  exists results. eexists. split; [exact Hcheck |].
  split; [unfold main; fold link_map; rewrite Hcheck; reflexivity |].
  cbn [report_rows broken_urls broken_refs].
  split; [apply sorted_perm |].
  split; [apply sorted_rows_ordered |].
  split; [| split; [| split]].
  - intros arrival Hperm. apply sorted_perm_invariant.
    + intros r1 r2. apply key_leb_total.
    + intros r1 r2 r3. apply key_leb_trans.
    + intros r1 r2 H1 H2 H12 H21.
      apply (records_key_injective link_map outcome).
      * apply (Permutation_in _ Hperm), H1.
      * apply (Permutation_in _ Hperm), H2.
      * apply key_leb_antisym; assumption.
    + exact Hperm.
  - apply broken_urls_count; [exact Hwf | apply sorted_perm].
  - apply sorted_length.
  - rewrite sorted_length. apply records_length.
Qed.

Lemma sorted_nil_iff {A} (leb : A -> A -> bool) (l : list A) :
  sorted leb l = [] <-> l = [].
Proof.
  split; [| intros ->; reflexivity].
  intros H. pose proof (sorted_length leb l) as Hlen. rewrite H in Hlen.
  destruct l; [reflexivity | discriminate].
Qed.

(** C9.  [main] returns exactly when [check_all_links] does, and then its
    exit code is 0 if and only if the list of failure records is empty, and
    1 when the list is not empty.  (When a task raised, [main] raises the
    same exception and hands no exit code to its caller.) *)
Theorem exit_code_reflects_failures :
  forall (listdir : list string) (extract_links : string -> list string)
         (probe : string -> Result Outcome),
    match check_all_links probe (build_link_map extract_links (html_files listdir)),
          main listdir extract_links probe with
    | Returned results, Returned report =>
        (exit_code report = 0 <-> results = []) /\
        (results <> [] -> exit_code report = 1)
    | Raised e, Raised e' => e = e'
    | _, _ => False
    end.
Proof.
  intros listdir extract_links probe. unfold main.
  destruct (check_all_links probe (build_link_map extract_links (html_files listdir)))
    as [results | e]; [| reflexivity].
  cbn [exit_code]. pose proof (sorted_nil_iff row_leb results) as Hnil.
  destruct (sorted row_leb results) as [| row rows].
  - split; [split; [intros _; apply Hnil; reflexivity | reflexivity] |].
    intros Hne. exfalso. apply Hne, Hnil. reflexivity.
  - split; [split; [discriminate |] | reflexivity].
    intros H. apply Hnil in H. discriminate.
Qed.

(** C6, as amended.  Over a network that answers every request with a
    response or with an exception of the classes the handlers name
    ([aiohttp.ClientError], [asyncio.TimeoutError], [OSError]),
    [check_one_url] returns an outcome for every target and every retry
    count, and [main] runs to its report whatever the pages and targets
    are. *)
Theorem caught_failures_become_outcomes :
  forall net : Network,
    (forall log m url e, net log m url = Raises e -> exc_class e <> OtherException) ->
    (forall url retries, exists o : Outcome,
        fst (check_one_url net url retries) = Returned o) /\
    (forall listdir extract_links, exists report : Report,
        main listdir extract_links (probe_over net) = Returned report).
Proof.
  intros net Hnet.
  assert (Hone : forall url retries, exists o,
               fst (check_one_url net url retries) = Returned o).
  { intros url retries. apply check_one_url_returns.
    intros log m e. apply Hnet. }
  split; [exact Hone |].
  intros listdir extract_links. unfold main, check_all_links.
  set (lm := build_link_map extract_links (html_files listdir)).
  pose proof (await_all_result lm (probe_over net) (keys lm) [] (fun _ H => H)) as H.
  destruct (await_all lm (create_tasks (probe_over net) (keys lm)) []) as [rows | e].
  - eexists. reflexivity.
  - destruct H as [url [_ Hraise]]. destruct (Hone url RETRY_COUNT) as [o Ho].
    unfold probe_over in Hraise. congruence.
Qed.

(** Every failure mode the handlers name, at the default retry count against
    a host that refuses connections. *)
Lemma refused_connections_are_outcomes :
  (forall log m url e,
      Scenario.refusing log m url = Raises e -> exc_class e <> OtherException) /\
  (forall url retries, exists o : Outcome,
      fst (check_one_url Scenario.refusing url retries) = Returned o) /\
  (forall listdir extract_links, exists report : Report,
      main listdir extract_links (probe_over Scenario.refusing) = Returned report).
Proof.
  assert (H : forall log m url e,
             Scenario.refusing log m url = Raises e ->
             exc_class e <> OtherException).
  { intros log m url e Heq. injection Heq as <-. discriminate. }
  split; [exact H |].
  exact (caught_failures_become_outcomes Scenario.refusing H).
Defined.

(** C6, as stated, fails: an exception outside the caught hierarchies leaves
    [check_one_url] as an exception, and the [await] in [check_all_links]
    re-raises it, so [main] ends without a report although the other target
    of the page answers 200. *)
Lemma uncaught_exception_escapes :
  fst (check_one_url Scenario.bad_redirect "http://moved.example" RETRY_COUNT) =
    Raised Scenario.bad_redirect_error /\
  fst (check_one_url Scenario.bad_redirect "http://fine.example" RETRY_COUNT) =
    Returned (Some 200, "OK"%string) /\
  main ["index.html"%string] Scenario.two_links (probe_over Scenario.bad_redirect) =
    Raised Scenario.bad_redirect_error.
Proof. repeat split; reflexivity. Qed.

(** C10.  A reference is external exactly when it starts with the lowercase
    ["http://"] or ["https://"]; a reference that is not external is no key
    of the link map and no task is started for it; references with an
    uppercase, mixed-case or other scheme are not external. *)
Theorem external_means_lowercase_http_prefix :
  forall url : string,
    (is_external url = true <->
     (exists rest, url = ("http://" ++ rest)%string) \/
     (exists rest, url = ("https://" ++ rest)%string)) /\
    (is_external url = false ->
     forall listdir extract_links probe,
       let link_map := build_link_map extract_links (html_files listdir) in
       ~ In url (keys link_map) /\
       ~ In url (map fst (create_tasks probe (keys link_map)))) /\
    is_external "HTTP://example.com" = false /\
    is_external "Https://example.com" = false /\
    is_external "ftp://example.com" = false.
Proof.
  intros url. split; [| split; [| repeat split]].
  - unfold is_external, startswith. rewrite orb_true_iff, !prefix_app. reflexivity.
  - intros Hext listdir extract_links probe link_map.
    assert (Hkeys : ~ In url (keys link_map)).
    { intros Hin.
      apply (well_formed_key_mentioned link_map url
               (build_link_map_well_formed extract_links (html_files listdir))) in Hin.
      destruct Hin as [page Hpage]. apply build_link_map_mentions in Hpage.
      destruct Hpage as [_ [_ H]]. congruence. }
    split; [exact Hkeys |].
    unfold create_tasks. rewrite map_map, map_id. exact Hkeys.
Qed.

(** * Further properties of the script *)

(** ** More on the probe engine *)

Lemma head_phase_log (net : Network) (url : string) (log : list Event) :
  snd (head_phase net url log) = log ++ [Request HEAD url].
Proof.
  unfold head_phase, send. destruct (net log HEAD url) as [resp | e].
  - destruct (resp_status resp <? 400); [reflexivity |].
    destruct (resp_status resp =? 405); reflexivity.
  - destruct (is_ClientError e || is_TimeoutError e || is_OSError e); reflexivity.
Qed.

(** The second [try] adds its request to the log, and a pause exactly when
    it asks for another iteration. *)
Lemma get_phase_log (net : Network) (url : string) (attempt retries : Z)
    (log : list Event) :
  (fst (get_phase net url attempt retries log) = GetContinue /\
   attempt < retries /\
   snd (get_phase net url attempt retries log) = log ++ [Request GET url; Sleep 2]) \/
  (fst (get_phase net url attempt retries log) <> GetContinue /\
   snd (get_phase net url attempt retries log) = log ++ [Request GET url]).
Proof.
  unfold get_phase, send, retry_or.
  destruct (net log GET url) as [resp | e].
  - right. split; [discriminate | reflexivity].
  - destruct (is_TimeoutError e), (is_ClientConnectorError e), (is_ClientError e),
      (is_OSError e); destruct (Z.ltb_spec attempt retries); cbn [fst snd];
      first [ left; split; [reflexivity |]; split; [assumption |];
              rewrite <- app_assoc; reflexivity
            | right; split; [discriminate | reflexivity] ].
Qed.

Lemma count_below (retries : Z) (m k : nat) :
  (List.length (filter (fun a => (a <? retries)%Z) (map Z.of_nat (seq k m)))
   <= Z.to_nat retries - k)%nat.
Proof.
  revert k. induction m as [| m IH]; intros k; cbn [seq map filter].
  - cbn. lia.
  - specialize (IH (S k)).
    destruct (Z.ltb_spec (Z.of_nat k) retries); cbn [List.length]; lia.
Qed.

Lemma attempt_loop_budget (net : Network) (url : string) (retries : Z)
    (attempts : list Z) (log : list Event) :
  exists added,
    snd (attempt_loop net url retries attempts log) = log ++ added /\
    (List.length (filter (is_request HEAD) added) <= List.length attempts)%nat /\
    (List.length (filter (is_request GET) added)
     <= List.length (filter (is_request HEAD) added))%nat /\
    (List.length (filter is_sleep added)
     <= List.length (filter (is_request GET) added))%nat /\
    (List.length (filter is_sleep added)
     <= List.length (filter (fun a => (a <? retries)%Z) attempts))%nat.
Proof.
  revert log. induction attempts as [| attempt rest IH]; intros log.
  - exists []. rewrite app_nil_r. cbn. repeat split; lia.
  - cbn [attempt_loop].
    pose proof (head_phase_log net url log) as Hhead.
    destruct (head_phase net url log) as [[o | | e] log1]; cbn [snd] in Hhead; subst log1;
      try (exists [Request HEAD url]; cbn; repeat split; lia).
    pose proof (get_phase_log net url attempt retries (log ++ [Request HEAD url]))
      as Hget.
    destruct (get_phase net url attempt retries (log ++ [Request HEAD url]))
      as [[o | | e] log2]; cbn [fst snd] in Hget.
    + destruct Hget as [[Hc _] | [_ ->]]; [discriminate |].
      exists [Request HEAD url; Request GET url]. rewrite <- app_assoc.
      cbn. repeat split; lia.
    + destruct Hget as [[_ [Hlt ->]] | [Hc _]]; [| contradiction].
      destruct (IH ((log ++ [Request HEAD url]) ++ [Request GET url; Sleep 2]))
        as [added [Hlog [Hh [Hg [Hs Hr]]]]].
      exists (Request HEAD url :: Request GET url :: Sleep 2 :: added).
      split; [rewrite Hlog; repeat rewrite <- app_assoc; reflexivity |].
      cbn [filter is_request is_sleep List.length].
      destruct (Z.ltb_spec attempt retries); [| lia].
      cbn [List.length]. repeat split; lia.
    + destruct Hget as [[Hc _] | [_ ->]]; [discriminate |].
      exists [Request HEAD url; Request GET url]. rewrite <- app_assoc.
      cbn. repeat split; lia.
Qed.

(** Whatever the network does, a probe sends at most [1 + retries] HEAD
    requests, never more GET than HEAD requests, pauses at most once per GET
    request and at most [retries] times. *)
Theorem probe_stays_within_budget :
  forall (net : Network) (url : string) (retries : Z),
    let log := snd (check_one_url net url retries) in
    let heads := List.length (filter (is_request HEAD) log) in
    let gets := List.length (filter (is_request GET) log) in
    let pauses := List.length (filter is_sleep log) in
    (heads <= Z.to_nat (1 + retries))%nat /\
    (gets <= heads)%nat /\
    (pauses <= gets)%nat /\
    (pauses <= Z.to_nat retries)%nat.
Proof.
  intros net url retries. cbv zeta.
  unfold check_one_url, run_attempts.
  destruct (attempt_loop_budget net url retries (range (1 + retries)) [Acquire])
    as [added [Hlog [Hh [Hg [Hs Hr]]]]].
  destruct (attempt_loop net url retries (range (1 + retries)) [Acquire])
    as [exit log]. cbn [snd] in Hlog. subst log.
  assert (Hcount : forall p, p Acquire = false -> p Release = false ->
             List.length (filter p (([Acquire] ++ added) ++ [Release])) =
             List.length (filter p added)).
  { intros p Ha Hrel. rewrite !filter_app, !length_app. cbn [filter].
    rewrite Ha, Hrel. cbn. lia. }
  assert (Hrange : (List.length (filter (fun a => (a <? retries)%Z) (range (1 + retries)))
                    <= Z.to_nat retries)%nat).
  { unfold range.
    pose proof (count_below retries (Z.to_nat (1 + retries)) 0). lia. }
  assert (Hlen : List.length (range (1 + retries)) = Z.to_nat (1 + retries)).
  { unfold range. rewrite length_map, length_seq. reflexivity. }
  destruct exit; cbn [snd]; rewrite !Hcount by reflexivity; repeat split; lia.
Qed.

(** Where the result of a first [try] comes from. *)
Lemma head_phase_cause (net : Network) (url : string) (log : list Event) :
  match fst (head_phase net url log) with
  | HeadReturn (status, why) =>
      exists code reason,
        net log HEAD url = Responds (mkResp code reason) /\ status = Some code
  | HeadPass => True
  | HeadPropagate e => net log HEAD url = Raises e /\ exc_class e = OtherException
  end.
Proof.
  unfold head_phase, send. destruct (net log HEAD url) as [[code reason] | e].
  - cbn [resp_status resp_reason].
    destruct (code <? 400); [cbn; eauto |].
    destruct (code =? 405); cbn; eauto.
  - unfold is_ClientError, is_TimeoutError, is_OSError.
    destruct e as [[] msg]; cbn; auto.
Qed.

Lemma get_phase_cause (net : Network) (url : string) (attempt retries : Z)
    (log : list Event) :
  match fst (get_phase net url attempt retries log) with
  | GetReturn (Some code, why) =>
      exists reason, net log GET url = Responds (mkResp code reason)
  | GetReturn (None, why) =>
      exists e, net log GET url = Raises e /\ failure_reason e why
  | GetContinue => True
  | GetPropagate e => net log GET url = Raises e /\ exc_class e = OtherException
  end.
Proof.
  unfold get_phase, send, retry_or, failure_reason.
  destruct (net log GET url) as [[code reason] | e].
  - cbn. eauto.
  - unfold is_TimeoutError, is_ClientConnectorError, is_ClientError, is_OSError.
    destruct e as [[] msg]; cbn [exc_class exc_str];
      destruct (attempt <? retries); cbn [fst]; auto;
      eexists; (split; [reflexivity |]); cbn [exc_class exc_str]; tauto.
Qed.

(** How the loop ends, and on which request: the request that decides is
    the last event of the log, and the network was asked at the history
    before it. *)
Lemma attempt_loop_last_request (net : Network) (url : string) (retries : Z)
    (attempts : list Z) (log : list Event) :
  match attempt_loop net url retries attempts log with
  | (LoopReturn (Some code, why), log') =>
      exists h m reason,
        log' = h ++ [Request m url] /\
        net h m url = Responds (mkResp code reason)
  | (LoopReturn (None, why), log') =>
      exists h e,
        log' = h ++ [Request GET url] /\
        net h GET url = Raises e /\ failure_reason e why
  | (LoopRaise e, log') =>
      exc_class e = OtherException /\
      exists h m, log' = h ++ [Request m url] /\ net h m url = Raises e
  | (LoopExhausted, _) => True
  end.
Proof.
  revert log. induction attempts as [| attempt rest IH]; intros log; [exact I |].
  cbn [attempt_loop].
  pose proof (head_phase_cause net url log) as Hhead.
  pose proof (head_phase_log net url log) as Hlog1.
  destruct (head_phase net url log) as [[[status why] | | e] log1];
    cbn [fst snd] in *; subst log1.
  - destruct Hhead as [code [reason [Hreply ->]]]. eauto.
  - pose proof (get_phase_cause net url attempt retries (log ++ [Request HEAD url]))
      as Hget.
    pose proof (get_phase_log net url attempt retries (log ++ [Request HEAD url]))
      as Hlog2.
    destruct (get_phase net url attempt retries (log ++ [Request HEAD url]))
      as [[[[code |] why] | | e] log2]; cbn [fst snd] in *.
    + destruct Hlog2 as [[Hc _] | [_ ->]]; [discriminate |].
      destruct Hget as [reason Hreply]. eauto.
    + destruct Hlog2 as [[Hc _] | [_ ->]]; [discriminate |].
      destruct Hget as [e [Hreply Hwhy]]. eauto.
    + apply IH.
    + destruct Hlog2 as [[Hc _] | [_ ->]]; [discriminate |].
      destruct Hget as [Hreply Hclass]. eauto.
  - destruct Hhead as [Hreply Hclass]. eauto.
Qed.

(** Every result of [check_one_url] is decided by the last request in its
    log, the event just before the release of the slot: a status code is
    the code of the response to that request; a missing status comes with
    the reason of the transport exception that GET request raised (or with
    ["Unknown error"] and no request at all, only when [retries] is
    negative); an exception that leaves the function was raised by that
    request and is outside the caught hierarchies.  In each case the network
    was asked at the history the log holds before the request. *)
Theorem every_result_has_a_cause :
  forall (net : Network) (url : string) (retries : Z),
    let '(result, log) := check_one_url net url retries in
    match result with
    | Returned (Some code, why) =>
        exists h m reason,
          log = h ++ [Request m url; Release] /\
          net h m url = Responds (mkResp code reason)
    | Returned (None, why) =>
        (retries < 0 /\ why = "Unknown error"%string /\ log = [Acquire; Release]) \/
        (exists h e,
            log = h ++ [Request GET url; Release] /\
            net h GET url = Raises e /\ failure_reason e why)
    | Raised e =>
        exc_class e = OtherException /\
        exists h m, log = h ++ [Request m url; Release] /\ net h m url = Raises e
    end.
Proof.
  intros net url retries. unfold check_one_url.
  pose proof (attempt_loop_last_request net url retries (range (1 + retries)) [Acquire])
    as Hcause.
  assert (Hlast : 0 <= retries -> fst (run_attempts net url retries) <> LoopExhausted).
  { intros Hretries. unfold run_attempts. rewrite (range_unfold retries Hretries).
    apply loop_ends_by_last_attempt. lia. }
  assert (Hnone : retries < 0 -> run_attempts net url retries = (LoopExhausted, [Acquire])).
  { intros Hneg. unfold run_attempts, range.
    replace (Z.to_nat (1 + retries)) with 0%nat by lia. reflexivity. }
  unfold run_attempts in *.
  destruct (attempt_loop net url retries (range (1 + retries)) [Acquire])
    as [[[[code |] why] | e |] log]; cbn [fst] in *.
  - destruct Hcause as [h [m [reason [-> Hreply]]]].
    exists h, m, reason. rewrite <- app_assoc. auto.
  - right. destruct Hcause as [h [e [-> Hrest]]].
    exists h, e. rewrite <- app_assoc. auto.
  - destruct Hcause as [Hclass [h [m [-> Hreply]]]]. split; [exact Hclass |].
    exists h, m. rewrite <- app_assoc. auto.
  - left. destruct (Z.ltb_spec retries 0) as [Hneg | Hpos].
    + injection (Hnone Hneg) as ->. auto.
    + exfalso. apply (Hlast Hpos). reflexivity.
Qed.

(** C7, as amended.  With [retries >= 0] the attempt loop never runs out of
    iterations, so the [return None, "Unknown error"] after the loop is not
    reached: the loop is left through a [return], whose outcome is what
    [check_one_url] returns, or through an exception outside the caught
    hierarchies raised by the last request; and over a network whose
    requests raise exceptions of the caught hierarchies only, it is left
    through a [return]. *)
Theorem defensive_return_is_unreachable :
  forall (net : Network) (url : string) (retries : Z),
    0 <= retries ->
    fst (run_attempts net url retries) <> LoopExhausted /\
    ((exists o : Outcome,
         fst (run_attempts net url retries) = LoopReturn o /\
         fst (check_one_url net url retries) = Returned o) \/
     (exists e : Exception,
         fst (run_attempts net url retries) = LoopRaise e /\
         fst (check_one_url net url retries) = Raised e /\
         exc_class e = OtherException /\
         exists h m,
           snd (run_attempts net url retries) = h ++ [Request m url] /\
           net h m url = Raises e)) /\
    ((forall h m e, net h m url = Raises e -> exc_class e <> OtherException) ->
     exists o : Outcome,
       fst (run_attempts net url retries) = LoopReturn o /\
       fst (check_one_url net url retries) = Returned o).
Proof.
  intros net url retries Hretries.
  assert (Hlast : fst (run_attempts net url retries) <> LoopExhausted).
  { unfold run_attempts. rewrite (range_unfold retries Hretries).
    apply loop_ends_by_last_attempt. lia. }
  pose proof (attempt_loop_last_request net url retries (range (1 + retries)) [Acquire])
    as Hcause.
  pose proof (only_uncaught_classes_propagate net url (range (1 + retries)) retries
                [Acquire]) as Hcaught.
  unfold check_one_url. unfold run_attempts in *.
  destruct (attempt_loop net url retries (range (1 + retries)) [Acquire])
    as [[o | e |] log]; cbn [fst snd] in *.
  - split; [discriminate |]. split; [left | intros _]; exists o; auto.
  - split; [discriminate |]. split.
    + right. exists e. destruct Hcause as [Hclass Hreq]. auto.
    + intros Hnet. exfalso. apply (Hcaught Hnet e). reflexivity.
  - contradiction.
Qed.

Lemma defensive_return_unreachable_by_default :
  0 <= RETRY_COUNT /\
  fst (run_attempts Scenario.refusing "http://down.example" RETRY_COUNT)
    <> LoopExhausted /\
  ((exists o : Outcome,
       fst (run_attempts Scenario.refusing "http://down.example" RETRY_COUNT) =
         LoopReturn o /\
       fst (check_one_url Scenario.refusing "http://down.example" RETRY_COUNT) =
         Returned o) \/
   (exists e : Exception,
       fst (run_attempts Scenario.refusing "http://down.example" RETRY_COUNT) =
         LoopRaise e /\
       fst (check_one_url Scenario.refusing "http://down.example" RETRY_COUNT) =
         Raised e /\
       exc_class e = OtherException /\
       exists h m,
         snd (run_attempts Scenario.refusing "http://down.example" RETRY_COUNT) =
           h ++ [Request m "http://down.example"] /\
         Scenario.refusing h m "http://down.example" = Raises e)) /\
  ((forall h m e,
       Scenario.refusing h m "http://down.example" = Raises e ->
       exc_class e <> OtherException) ->
   exists o : Outcome,
     fst (run_attempts Scenario.refusing "http://down.example" RETRY_COUNT) =
       LoopReturn o /\
     fst (check_one_url Scenario.refusing "http://down.example" RETRY_COUNT) =
       Returned o).
Proof.
  split; [unfold RETRY_COUNT; lia |].
  apply (defensive_return_is_unreachable
           Scenario.refusing "http://down.example" RETRY_COUNT).
  unfold RETRY_COUNT. lia.
Defined.

(** C7, as stated, fails: with the default retry count, a first attempt that
    times out and a final attempt whose HEAD request raises outside the
    caught hierarchies leave the loop by that exception; the final attempt
    produces no outcome. *)
Lemma final_attempt_can_end_in_an_exception :
  0 <= RETRY_COUNT /\
  check_one_url Scenario.breaks_on_retry "http://moved.example" RETRY_COUNT =
    (Raised Scenario.bad_redirect_error,
     [Acquire; Request HEAD "http://moved.example"; Request GET "http://moved.example";
      Sleep 2; Request HEAD "http://moved.example"; Release]) /\
  fst (run_attempts Scenario.breaks_on_retry "http://moved.example" RETRY_COUNT) =
    LoopRaise Scenario.bad_redirect_error /\
  (forall o : Outcome,
      fst (run_attempts Scenario.breaks_on_retry "http://moved.example" RETRY_COUNT)
      <> LoopReturn o).
Proof.
  split; [unfold RETRY_COUNT; lia |]. split; [reflexivity |]. split; [reflexivity |].
  intros o H. cbn in H. discriminate H.
Qed.

Lemma get_phase_transient (net : Network) (url : string) (e : Exception)
    (log : list Event) :
  net log GET url = Raises e -> exc_class e <> OtherException ->
  exists why, failure_reason e why /\
    forall attempt retries,
      get_phase net url attempt retries log =
        retry_or attempt retries why (log ++ [Request GET url]).
Proof.
  intros Hreply Hclass. unfold get_phase, send, failure_reason. rewrite Hreply.
  unfold is_TimeoutError, is_ClientConnectorError, is_ClientError, is_OSError.
  destruct e as [[] msg]; cbn [exc_class exc_str] in *;
    try contradiction; eexists; (split; [| intros; reflexivity]); tauto.
Qed.

Section AlwaysFailing.
Variables (net : Network) (url : string) (retries : Z) (why : string).
Hypothesis Hhead : forall log, head_passes (net log HEAD url).
Hypothesis Hget :
  forall log attempt,
    get_phase net url attempt retries log =
      retry_or attempt retries why (log ++ [Request GET url]).

Lemma failing_loop (m k : nat) (log : list Event) :
  Z.of_nat k + Z.of_nat m = retries ->
  attempt_loop net url retries (map Z.of_nat (seq k (S m))) log =
    (LoopReturn (None, why),
     log ++ List.concat (repeat [Request HEAD url; Request GET url; Sleep 2] m)
         ++ [Request HEAD url; Request GET url]).
Proof.
  revert k log. induction m as [| m IH]; intros k log Hk.
  - cbn [seq map attempt_loop].
    rewrite (head_phase_passes _ _ _ (Hhead log)), Hget.
    unfold retry_or. destruct (Z.ltb_spec (Z.of_nat k) retries) as [Hlt | _]; [lia |].
    cbn [repeat List.concat]. rewrite <- app_assoc. reflexivity.
  - change (seq k (S (S m))) with (k :: seq (S k) (S m)).
    cbn [map attempt_loop].
    rewrite (head_phase_passes _ _ _ (Hhead log)), Hget.
    unfold retry_or. destruct (Z.ltb_spec (Z.of_nat k) retries) as [_ | Hge]; [| lia].
    rewrite IH by lia. f_equal.
    cbn [repeat List.concat]. repeat rewrite <- app_assoc. reflexivity.
Qed.

End AlwaysFailing.

(** A target whose GET request always fails with the same transport
    exception is tried [1 + retries] times, with a pause of 2 between the
    attempts, and ends without a status and with the reason of that
    exception: ["Timeout"], ["Connection failed"], or the text of the
    exception after ["Client error: "] or ["OS error: "]. *)
Theorem transport_failures_are_retried_then_reported :
  forall (net : Network) (url : string) (retries : Z) (e : Exception),
    0 <= retries ->
    exc_class e <> OtherException ->
    (forall log, head_passes (net log HEAD url)) ->
    (forall log, net log GET url = Raises e) ->
    exists why : string,
      failure_reason e why /\
      check_one_url net url retries =
        (Returned (None, why),
         [Acquire]
         ++ List.concat (repeat [Request HEAD url; Request GET url; Sleep 2]
                                (Z.to_nat retries))
         ++ [Request HEAD url; Request GET url; Release]).
Proof.
  intros net url retries e Hretries Hclass Hhead Hget.
  assert (Hwhy : exists why, failure_reason e why /\
             forall log attempt,
               get_phase net url attempt retries log =
                 retry_or attempt retries why (log ++ [Request GET url])).
  { destruct (get_phase_transient net url e [] (Hget []) Hclass) as [why [Hwhy _]].
    exists why. split; [exact Hwhy |]. intros log attempt.
    destruct (get_phase_transient net url e log (Hget log) Hclass) as [why' [Hwhy' H]].
    rewrite H. f_equal.
    unfold failure_reason in *.
    destruct Hwhy as [[H1 ->] | [[H1 ->] | [[H1 ->] | [H1 ->]]]];
      destruct Hwhy' as [[H2 ->] | [[H2 ->] | [[H2 ->] | [H2 ->]]]];
      congruence. }
  destruct Hwhy as [why [Hwhy Hphase]]. exists why. split; [exact Hwhy |].
  unfold check_one_url, run_attempts.
  rewrite (range_unfold retries Hretries).
  rewrite (failing_loop net url retries why Hhead Hphase (Z.to_nat retries) 0) by lia.
  repeat rewrite <- app_assoc. reflexivity.
Qed.

Lemma refused_connection_reported :
  0 <= RETRY_COUNT /\
  exc_class (mkExc ClientConnectorError "Cannot connect to host") <> OtherException /\
  (forall log, head_passes (Scenario.refusing log HEAD "http://down.example")) /\
  (forall log, Scenario.refusing log GET "http://down.example" =
               Raises (mkExc ClientConnectorError "Cannot connect to host")) /\
  exists why : string,
    failure_reason (mkExc ClientConnectorError "Cannot connect to host") why /\
    check_one_url Scenario.refusing "http://down.example" RETRY_COUNT =
      (Returned (None, why),
       [Acquire]
       ++ List.concat (repeat [Request HEAD "http://down.example";
                               Request GET "http://down.example"; Sleep 2]
                              (Z.to_nat RETRY_COUNT))
       ++ [Request HEAD "http://down.example"; Request GET "http://down.example";
           Release]).
Proof.
  assert (H0 : 0 <= RETRY_COUNT) by (unfold RETRY_COUNT; lia).
  assert (Hclass : exc_class (mkExc ClientConnectorError "Cannot connect to host")
                   <> OtherException) by discriminate.
  assert (Hhead : forall log,
             head_passes (Scenario.refusing log HEAD "http://down.example")).
  { intros log. right. eexists. split; [reflexivity | discriminate]. }
  assert (Hget : forall log,
             Scenario.refusing log GET "http://down.example" =
             Raises (mkExc ClientConnectorError "Cannot connect to host"))
    by reflexivity.
  split; [exact H0 |]. split; [exact Hclass |]. split; [exact Hhead |].
  split; [exact Hget |].
  exact (transport_failures_are_retried_then_reported
           Scenario.refusing "http://down.example" RETRY_COUNT
           (mkExc ClientConnectorError "Cannot connect to host")
           H0 Hclass Hhead Hget).
Defined.

(** A transport failure on the first attempt does not decide the outcome
    when a retry is left: if, after the pause, the HEAD request is answered
    below 400, the target is reported as reachable. *)
Theorem retry_recovers_from_a_transport_failure :
  forall (net : Network) (url : string) (retries code : Z) (e : Exception)
         (reason : option string),
    1 <= retries ->
    head_passes (net [Acquire] HEAD url) ->
    net [Acquire; Request HEAD url] GET url = Raises e ->
    exc_class e <> OtherException ->
    net [Acquire; Request HEAD url; Request GET url; Sleep 2] HEAD url =
      Responds (mkResp code reason) ->
    code < 400 ->
    check_one_url net url retries =
      (Returned (Some code, "OK"%string),
       [Acquire; Request HEAD url; Request GET url; Sleep 2; Request HEAD url;
        Release]).
Proof.
  intros net url retries code e reason Hretries Hhead Hget Hclass Hhead2 Hcode.
  unfold check_one_url, run_attempts.
  rewrite (range_unfold retries) by lia.
  destruct (Z.to_nat retries) as [| n] eqn:Hn; [lia |].
  cbn [seq map attempt_loop].
  rewrite (head_phase_passes net url [Acquire] Hhead). cbn [app].
  destruct (get_phase_transient net url e _ Hget Hclass) as [why [_ Hphase]].
  rewrite Hphase. unfold retry_or.
  destruct (Z.ltb_spec (Z.of_nat 0) retries) as [_ | Hge]; [| cbn in Hge; lia].
  cbn [app]. unfold head_phase, send. rewrite Hhead2. cbn [resp_status].
  destruct (Z.ltb_spec code 400) as [_ | Hge]; [reflexivity | lia].
Qed.

Lemma flaky_server_recovers :
  1 <= RETRY_COUNT /\
  head_passes (Scenario.flaky [Acquire] HEAD "http://flaky.example") /\
  Scenario.flaky [Acquire; Request HEAD "http://flaky.example"] GET
    "http://flaky.example" = Raises (mkExc TimeoutError "timed out") /\
  exc_class (mkExc TimeoutError "timed out") <> OtherException /\
  Scenario.flaky
    [Acquire; Request HEAD "http://flaky.example"; Request GET "http://flaky.example";
     Sleep 2] HEAD "http://flaky.example" =
    Responds (mkResp 200 (Some "OK"%string)) /\
  200 < 400 /\
  check_one_url Scenario.flaky "http://flaky.example" RETRY_COUNT =
    (Returned (Some 200, "OK"%string),
     [Acquire; Request HEAD "http://flaky.example"; Request GET "http://flaky.example";
      Sleep 2; Request HEAD "http://flaky.example"; Release]).
Proof.
  assert (H1 : 1 <= RETRY_COUNT) by (unfold RETRY_COUNT; lia).
  assert (Hhead : head_passes (Scenario.flaky [Acquire] HEAD "http://flaky.example")).
  { right. eexists. split; [reflexivity | discriminate]. }
  assert (Hclass : exc_class (mkExc TimeoutError "timed out") <> OtherException)
    by discriminate.
  split; [exact H1 |]. split; [exact Hhead |]. split; [reflexivity |].
  split; [exact Hclass |]. split; [reflexivity |]. split; [lia |].
  apply (retry_recovers_from_a_transport_failure
           Scenario.flaky "http://flaky.example" RETRY_COUNT 200
           (mkExc TimeoutError "timed out") (Some "OK"%string)
           H1 Hhead eq_refl Hclass eq_refl).
  lia.
Defined.

(** ** Link extraction *)

(** The values one start tag contributes: the non-empty [href] values. *)
Lemma append_hrefs_app (attrs : Attrs) (links : list string) :
  append_hrefs attrs links = links ++ append_hrefs attrs [].
Proof.
  revert links. induction attrs as [| [attr value] attrs IH]; intros links.
  - cbn. rewrite app_nil_r. reflexivity.
  - cbn [append_hrefs]. destruct value as [v |]; [| apply IH].
    destruct ((attr =? "href")%string && negb (v =? EmptyString)%string);
      [| apply IH].
    rewrite IH, (IH ([] ++ [v])), app_assoc. reflexivity.
Qed.

Lemma append_hrefs_In (attrs : Attrs) (url : string) :
  In url (append_hrefs attrs []) <->
  In ("href"%string, Some url) attrs /\ url <> EmptyString.
Proof.
  induction attrs as [| [attr value] attrs IH]; cbn [append_hrefs In].
  - tauto.
  - destruct value as [v |].
    + destruct (String.eqb_spec attr "href") as [-> | Hattr];
        destruct (String.eqb_spec v EmptyString) as [-> | Hv]; cbn [andb negb].
      * rewrite IH. split; [intros [H1 H2]; auto |].
        intros [[[= <-] | H1] H2]; [congruence | auto].
      * rewrite append_hrefs_app, in_app_iff, IH. cbn [In]. split.
        -- intros [[<- | []] | [H1 H2]]; [split; [left; reflexivity | exact Hv] |].
           split; [right; exact H1 | exact H2].
        -- intros [[[= <-] | H1] H2]; [left; left; reflexivity | right; auto].
      * rewrite IH. split; [intros [H1 H2]; auto |].
        intros [[[= H _] | H1] H2]; [congruence | auto].
      * rewrite IH. split; [intros [H1 H2]; auto |].
        intros [[[= H _] | H1] H2]; [congruence | auto].
    + rewrite IH. split; [intros [H1 H2]; auto |].
      intros [[[=] | H1] H2]. auto.
Qed.

Lemma feed_app_links (start_tags : list (string * Attrs)) (links : list string) :
  feed start_tags links = links ++ feed start_tags [].
Proof.
  unfold feed. revert links.
  induction start_tags as [| [tag attrs] tags IH]; intros links; cbn [fold_left fst snd].
  - rewrite app_nil_r. reflexivity.
  - rewrite IH, (IH (handle_starttag [] tag attrs)), app_assoc. f_equal.
    unfold handle_starttag. destruct (tag =? "a")%string; [| rewrite app_nil_r; reflexivity].
    apply append_hrefs_app.
Qed.

(** The links of a document are the non-empty [href] values of its [a]
    start tags, the values of other attributes and other tags left out; and
    they come in document order: the links of two pieces of a document read
    one after the other are the links of the first followed by those of the
    second. *)
Theorem extracted_links_are_anchor_hrefs :
  forall (doc more : list (string * Attrs)),
    (forall url,
        In url (extract_links_of doc) <->
        exists attrs,
          In ("a"%string, attrs) doc /\ In ("href"%string, Some url) attrs /\
          url <> EmptyString) /\
    extract_links_of (doc ++ more) = extract_links_of doc ++ extract_links_of more.
Proof.
  intros doc more. unfold extract_links_of. split.
  - intros url. induction doc as [| [tag attrs] doc IH].
    + cbn. split; [intros [] | intros [attrs [[] _]]].
    + unfold feed in *. cbn [fold_left fst snd].
      fold (feed doc (handle_starttag [] tag attrs)).
      rewrite feed_app_links, in_app_iff. unfold feed. rewrite IH.
      unfold handle_starttag. destruct (String.eqb_spec tag "a") as [-> | Htag].
      * rewrite append_hrefs_In. split.
        -- intros [[H1 H2] | [attrs' [H1 H2]]].
           ++ exists attrs. split; [left; reflexivity | auto].
           ++ exists attrs'. split; [right; exact H1 | exact H2].
        -- intros [attrs' [[[= <-] | H1] H2]]; [left; exact H2 |].
           right. exists attrs'. auto.
      * split.
        -- intros [[] | [attrs' [H1 H2]]]. exists attrs'. split; [right; exact H1 | exact H2].
        -- intros [attrs' [[[= H _] | H1] H2]]; [congruence |].
           right. exists attrs'. auto.
  - unfold feed. rewrite fold_left_app.
    fold (feed doc []). fold (feed more (feed doc [])).
    apply feed_app_links.
Qed.

(** ** File names *)

Lemma substring_all (s : string) : substring 0 (String.length s) s = s.
Proof. induction s as [| c s IH]; cbn; [reflexivity | rewrite IH; reflexivity]. Qed.

Lemma substring_skip (pre s : string) (k : nat) :
  substring (String.length pre) k (pre ++ s) = substring 0 k s.
Proof. induction pre as [| c pre IH]; cbn [String.length String.append substring]; auto. Qed.

Lemma length_append (s1 s2 : string) :
  String.length (s1 ++ s2) = (String.length s1 + String.length s2)%nat.
Proof. induction s1 as [| c s1 IH]; cbn; [reflexivity | rewrite IH; reflexivity]. Qed.

Lemma substring_split (s : string) (m : nat) :
  (m <= String.length s)%nat ->
  s = (substring 0 m s ++ substring m (String.length s - m) s)%string.
Proof.
  revert m. induction s as [| c s IH]; intros m Hm.
  - destruct m; cbn in *; [reflexivity | lia].
  - destruct m as [| m].
    + cbn [substring String.append String.length Nat.sub].
      rewrite substring_all. reflexivity.
    + cbn [substring String.append String.length Nat.sub]. f_equal.
      apply IH. cbn in Hm. lia.
Qed.

Lemma endswith_app (s suffix : string) :
  endswith s suffix = true <-> exists stem, s = (stem ++ suffix)%string.
Proof.
  unfold endswith. rewrite andb_true_iff, Nat.leb_le, String.eqb_eq. split.
  - intros [Hle Hsub].
    exists (substring 0 (String.length s - String.length suffix) s).
    rewrite <- Hsub at 2.
    rewrite (substring_split s (String.length s - String.length suffix)) at 1 by lia.
    do 3 f_equal. lia.
  - intros [stem ->]. rewrite length_append. split; [lia |].
    replace (String.length stem + String.length suffix - String.length suffix)%nat
      with (String.length stem) by lia.
    rewrite substring_skip. apply substring_all.
Qed.

(** Step 1 of [main] keeps exactly the names that end in [".html"], as often
    as the listing has them, in ascending order. *)
Theorem html_files_are_the_sorted_html_names :
  forall listdir : list string,
    (forall f, In f (html_files listdir) <->
               In f listdir /\ exists stem, f = (stem ++ ".html")%string) /\
    Permutation (html_files listdir) (filter (fun f => endswith f ".html") listdir) /\
    StronglySorted (fun a b => String.compare a b <> Gt) (html_files listdir).
Proof.
  intros listdir. split; [| split].
  - intros f. rewrite html_files_In, endswith_app. reflexivity.
  - apply sorted_perm.
  - apply (StronglySorted_weaken (fun a b => String.leb a b = true)).
    + intros a b. unfold String.leb. destruct (String.compare a b); congruence.
    + apply sorted_ordered; [apply String.leb_total | apply string_leb_trans].
Qed.

(** ** More on the link map *)

(** The link map groups the pages by target: its keys are pairwise distinct,
    the set under a url holds each page that references it once, and a url
    is a key exactly when some page references it. *)
Theorem link_map_groups_pages_by_target :
  forall (extract_links : string -> list string) (files : list string) (url : string),
    let link_map := build_link_map extract_links files in
    NoDup (keys link_map) /\
    NoDup (referrers link_map url) /\
    (forall page,
        In page (referrers link_map url) <->
        In page files /\ In url (extract_links page) /\ is_external url = true) /\
    (In url (keys link_map) <-> referrers link_map url <> []).
Proof.
  intros extract_links files url link_map.
  pose proof (build_link_map_well_formed extract_links files) as Hwf.
  fold link_map in Hwf.
  split; [apply Hwf |].
  split; [apply well_formed_referrers, Hwf |].
  split.
  - intros page. rewrite referrers_mentions. apply build_link_map_mentions.
  - split; [apply well_formed_referrers, Hwf |].
    intros Hne. apply lookup_keys. unfold referrers in Hne.
    destruct (lookup link_map url) as [pages |]; [eauto | contradiction].
Qed.

Lemma keys_nil (lm : LinkMap) : keys lm = [] -> lm = [].
Proof. destruct lm; [reflexivity | discriminate]. Qed.

(** When no HTML file of the directory holds an external reference, no task
    is started, whatever the probe would do, and [main] returns the empty
    report with exit code 0. *)
Theorem no_external_reference_no_probe :
  forall (listdir : list string) (extract_links : string -> list string)
         (probe : string -> Result Outcome),
    (forall page url, ~ references listdir extract_links page url) ->
    create_tasks probe (keys (build_link_map extract_links (html_files listdir))) = [] /\
    main listdir extract_links probe = Returned (mkReport [] 0 0 0).
Proof.
  intros listdir extract_links probe Hnone.
  assert (Hkeys : keys (build_link_map extract_links (html_files listdir)) = []).
  { destruct (keys (build_link_map extract_links (html_files listdir)))
      as [| url urls] eqn:Hk; [reflexivity |].
    exfalso.
    assert (Hin : In url (keys (build_link_map extract_links (html_files listdir))))
      by (rewrite Hk; left; reflexivity).
    apply (well_formed_key_mentioned _ url
             (build_link_map_well_formed extract_links (html_files listdir))) in Hin.
    destruct Hin as [page Hpage]. apply link_map_mentions in Hpage.
    exact (Hnone page url Hpage). }
  split; [rewrite Hkeys; reflexivity |].
  unfold main. rewrite (keys_nil _ Hkeys). reflexivity.
Qed.

Lemma no_external_reference_in_notes :
  (forall page url,
      ~ references ["notes.txt"%string; "index.html"%string]
          Scenario.local_links page url) /\
  create_tasks (probe_over Scenario.bad_redirect)
    (keys (build_link_map Scenario.local_links
             (html_files ["notes.txt"%string; "index.html"%string]))) = [] /\
  main ["notes.txt"%string; "index.html"%string]
       Scenario.local_links
       (probe_over Scenario.bad_redirect) = Returned (mkReport [] 0 0 0).
Proof.
  assert (H : forall page url,
             ~ references ["notes.txt"%string; "index.html"%string]
                 Scenario.local_links page url).
  { intros page url [_ [_ [Hin Hext]]].
    destruct Hin as [<- | [<- | []]]; discriminate Hext. }
  split; [exact H |].
  exact (no_external_reference_no_probe _ _ (probe_over Scenario.bad_redirect) H).
Defined.

Lemma records_nonempty_iff (listdir : list string)
    (extract_links : string -> list string) (outcome : string -> Outcome) :
  let lm := build_link_map extract_links (html_files listdir) in
  flat_map (records_for lm outcome) (keys lm) <> [] <->
  exists page url,
    references listdir extract_links page url /\
    is_failure (fst (outcome url)) = true.
Proof.
  intros lm.
  pose proof (build_link_map_well_formed extract_links (html_files listdir)) as Hwf.
  fold lm in Hwf. split.
  - intros Hne.
    destruct (flat_map (records_for lm outcome) (keys lm)) as [| row rows] eqn:Hrows;
      [contradiction |].
    assert (Hin : In row (flat_map (records_for lm outcome) (keys lm)))
      by (rewrite Hrows; left; reflexivity).
    apply in_flat_map in Hin. destruct Hin as [url [_ Hrow]].
    apply records_for_In in Hrow. destruct Hrow as [Hfail [Hpage _]].
    exists (row_page row), url. split; [| exact Hfail].
    apply link_map_mentions, referrers_mentions, Hpage.
  - intros [page [url [Href Hfail]]] Hnil.
    apply link_map_mentions in Href. fold lm in Href.
    assert (Hin : In (mkRow page url (status_cell (fst (outcome url)))
                        (snd (outcome url)))
                     (flat_map (records_for lm outcome) (keys lm))).
    { apply in_flat_map. exists url. split.
      - apply (well_formed_key_mentioned lm url Hwf). eauto.
      - apply records_for_In. cbn [row_page]. split; [exact Hfail |].
        split; [apply referrers_mentions; exact Href | reflexivity]. }
    rewrite Hnil in Hin. destruct Hin.
Qed.

(** When every task returns, the exit code of [main] is 1 exactly when some
    HTML file references an external target whose outcome is a failure, and
    0 exactly when no referenced target fails. *)
Theorem exit_code_is_one_iff_a_reference_fails :
  forall (listdir : list string) (extract_links : string -> list string)
         (outcome : string -> Outcome),
    exists report : Report,
      main listdir extract_links (fun url => Returned (outcome url)) = Returned report /\
      (exit_code report = 1 <->
       exists page url,
         references listdir extract_links page url /\
         is_failure (fst (outcome url)) = true) /\
      (exit_code report = 0 <->
       forall page url,
         references listdir extract_links page url ->
         is_failure (fst (outcome url)) = false).
Proof.
  intros listdir extract_links outcome.
  pose proof (records_nonempty_iff listdir extract_links outcome) as Hiff.
  cbv zeta in Hiff. unfold main. rewrite check_all_links_returns.
  set (lm := build_link_map extract_links (html_files listdir)) in *.
  set (results := flat_map (records_for lm outcome) (keys lm)) in *.
  eexists. split; [reflexivity |]. cbn [exit_code].
  pose proof (sorted_nil_iff row_leb results) as Hnil.
  destruct (sorted row_leb results) as [| row rows].
  - assert (Hres : results = []) by (apply Hnil; reflexivity).
    split; split; try discriminate.
    + intros H. apply Hiff in H. contradiction.
    + intros _ page url Href.
      destruct (is_failure (fst (outcome url))) eqn:Hfail; [| reflexivity].
      exfalso. apply (proj2 Hiff); [eauto | exact Hres].
    + reflexivity.
  - assert (Hres : results <> []).
    { intros H. apply Hnil in H. discriminate. }
    apply Hiff in Hres. split; split; try discriminate.
    + intros _. exact Hres.
    + reflexivity.
    + intros Hall. exfalso. destruct Hres as [page [url [Href Hfail]]].
      rewrite (Hall page url Href) in Hfail. discriminate.
Qed.

(** ** The counts of the summary *)

Lemma per_page_count_fold (extract_links : string -> list string)
    (files : list string) (n : nat) :
  fold_left
    (fun n fname => (n + List.length (filter is_external (extract_links fname)))%nat)
    files n =
  (n + List.length
         (flat_map (fun f => map (pair f) (filter is_external (extract_links f)))
                   files))%nat.
Proof.
  revert n. induction files as [| f files IH]; intros n; cbn [fold_left flat_map].
  - cbn. lia.
  - rewrite IH, length_app, length_map. lia.
Qed.

Lemma NoDup_map_on {A B} (f : A -> B) (l : list A) :
  (forall x y, In x l -> In y l -> f x = f y -> x = y) ->
  NoDup l -> NoDup (map f l).
Proof.
  intros Hinj Hl. induction Hl as [| x l Hx Hl IH]; cbn [map]; constructor.
  - rewrite in_map_iff. intros [y [Hy Hin]].
    apply Hinj in Hy; [subst; contradiction | right; exact Hin | left; reflexivity].
  - apply IH. intros a b Ha Hb. apply Hinj; right; assumption.
Qed.

(** The numbers [main] prints are consistent: there are no more distinct
    urls than external references, no more broken urls than distinct urls,
    no more broken urls than broken references, and no more broken
    references than external references. *)
Theorem summary_counts_are_consistent :
  forall (listdir : list string) (extract_links : string -> list string)
         (outcome : string -> Outcome),
    exists report : Report,
      main listdir extract_links (fun url => Returned (outcome url)) = Returned report /\
      (unique_count extract_links (html_files listdir)
       <= per_page_count extract_links (html_files listdir))%nat /\
      (broken_urls report <= unique_count extract_links (html_files listdir))%nat /\
      (broken_urls report <= broken_refs report)%nat /\
      (broken_refs report <= per_page_count extract_links (html_files listdir))%nat.
Proof.
  intros listdir extract_links outcome.
  unfold main. rewrite check_all_links_returns.
  set (files := html_files listdir).
  set (lm := build_link_map extract_links files).
  set (results := flat_map (records_for lm outcome) (keys lm)).
  pose proof (build_link_map_well_formed extract_links files) as Hwf.
  fold lm in Hwf.
  eexists. split; [reflexivity |]. cbn [broken_urls broken_refs].
  unfold unique_count, per_page_count. fold lm.
  rewrite per_page_count_fold. cbn [Nat.add].
  set (pairs := flat_map (fun f => map (pair f) (filter is_external (extract_links f)))
                         files).
  assert (Hpairs : forall page url,
             mentions lm url page -> In (page, url) pairs).
  { intros page url H. apply build_link_map_mentions in H.
    destruct H as [Hpage [Hurl Hext]].
    apply in_flat_map. exists page. split; [exact Hpage |].
    apply in_map, filter_In. auto. }
  assert (Hlen : List.length lm = List.length (keys lm))
    by (unfold keys; rewrite length_map; reflexivity).
  split; [| split; [| split]].
  - rewrite Hlen, <- (length_map snd pairs).
    apply NoDup_incl_length; [apply Hwf |].
    intros url Hurl. apply (well_formed_key_mentioned lm url Hwf) in Hurl.
    destruct Hurl as [page Hpage].
    change url with (snd (page, url)). apply in_map, Hpairs, Hpage.
  - rewrite (broken_urls_count lm outcome _ Hwf (sorted_perm row_leb results)), Hlen.
    apply filter_length_le.
  - rewrite <- (length_map row_url (sorted row_leb results)).
    apply NoDup_incl_length; [apply NoDup_nodup |].
    intros url. apply nodup_In.
  - rewrite sorted_length, <- (length_map row_key results).
    apply NoDup_incl_length.
    + apply NoDup_map_on; [| apply records_NoDup, Hwf].
      intros r1 r2. apply records_key_injective.
    + intros key Hkey. apply in_map_iff in Hkey.
      destruct Hkey as [row [<- Hrow]].
      apply in_flat_map in Hrow. destruct Hrow as [url [_ Hrow]].
      pose proof (records_for_url _ _ _ _ Hrow) as Hurl.
      apply records_for_In in Hrow. destruct Hrow as [_ [Hpage _]].
      unfold row_key. rewrite Hurl.
      apply Hpairs, referrers_mentions, Hpage.
Qed.

(** ** The text summary *)

Lemma page_lines_app (l1 l2 : list Line) :
  page_lines (l1 ++ l2) = page_lines l1 ++ page_lines l2.
Proof.
  induction l1 as [| [| page | status reason | url] l1 IH]; cbn [app page_lines];
    rewrite ?IH; reflexivity.
Qed.

Lemma page_lines_print_rows (current_page : option string) (r : Row)
    (rest : list Row) :
  page_lines (print_rows current_page (r :: rest)) =
  (match current_page with
   | Some page => if (row_page r =? page)%string then [] else [row_page r]
   | None => [row_page r]
   end) ++ page_lines (print_rows (Some (row_page r)) rest).
Proof.
  cbn [print_rows]. rewrite page_lines_app. cbn [app page_lines]. f_equal.
  destruct current_page as [page |]; [| reflexivity].
  destruct (row_page r =? page)%string; reflexivity.
Qed.

(** Every page of the rows has a page line, unless it is the current page. *)
Lemma page_lines_cover (current_page : option string) (rows : list Row)
    (page : string) :
  In page (page_lines (print_rows current_page rows)) \/ current_page = Some page <->
  (exists row, In row rows /\ row_page row = page) \/ current_page = Some page.
Proof.
  revert current_page. induction rows as [| r rest IH]; intros current_page.
  - cbn. split; [intros [[] | H]; auto | intros [[row [[] _]] | H]; auto].
  - rewrite page_lines_print_rows, in_app_iff. split.
    + intros [[Hhead | Hrest] | Hcur]; [| | auto].
      * left. exists r. split; [left; reflexivity |].
        destruct current_page as [p |];
          [destruct (row_page r =? p)%string |]; cbn in Hhead;
          intuition congruence.
      * destruct (proj1 (IH (Some (row_page r))) (or_introl Hrest))
          as [[row [Hin Hpage]] | [= Hpage]].
        -- left. exists row. split; [right; exact Hin | exact Hpage].
        -- left. exists r. split; [left; reflexivity | exact Hpage].
    + intros [[row [[<- | Hin] Hpage]] | Hcur]; [| | auto].
      * destruct current_page as [p |].
        -- destruct (String.eqb_spec (row_page r) p) as [Heq | Hne].
           ++ right. congruence.
           ++ left. left. left. exact Hpage.
        -- left. left. left. exact Hpage.
      * destruct (proj2 (IH (Some (row_page r))) (or_introl (ex_intro _ row (conj Hin Hpage))))
          as [H | [= H]].
        -- left. right. exact H.
        -- destruct current_page as [p |].
           ++ destruct (String.eqb_spec (row_page r) p) as [Heq | Hne].
              ** right. congruence.
              ** left. left. left. exact H.
           ++ left. left. left. exact H.
Qed.

Lemma string_compare_le_lt_trans (a b c : string) :
  String.compare a b <> Gt -> String.compare b c = Lt -> String.compare a c = Lt.
Proof.
  intros Hab Hbc. destruct (String.compare a b) eqn:H; [| | contradiction].
  - apply String.compare_eq_iff in H. subst. exact Hbc.
  - apply (string_compare_lt_trans a b c H Hbc).
Qed.

(** Over rows whose pages do not decrease, the page lines printed after a
    row of page [p] are above [p] and strictly increase. *)
Lemma page_lines_increase (rows : list Row) (p : string) :
  Forall (fun r => String.compare p (row_page r) <> Gt) rows ->
  StronglySorted (fun r1 r2 => String.compare (row_page r1) (row_page r2) <> Gt) rows ->
  Forall (fun q => String.compare p q = Lt) (page_lines (print_rows (Some p) rows)) /\
  StronglySorted (fun a b => String.compare a b = Lt)
                 (page_lines (print_rows (Some p) rows)).
Proof.
  revert p. induction rows as [| r rest IH]; intros p Hp Hsorted.
  - cbn. split; constructor.
  - rewrite page_lines_print_rows.
    apply Forall_cons_iff in Hp. destruct Hp as [Hr Hrest].
    apply StronglySorted_inv in Hsorted. destruct Hsorted as [Hsorted Hall].
    destruct (IH (row_page r) Hall Hsorted) as [Habove Hinc].
    destruct (String.eqb_spec (row_page r) p) as [Heq | Hne]; cbn [app].
    + rewrite <- Heq. split; assumption.
    + assert (Hlt : String.compare p (row_page r) = Lt).
      { destruct (String.compare p (row_page r)) eqn:H; [| reflexivity | contradiction].
        apply String.compare_eq_iff in H. congruence. }
      split.
      * constructor; [exact Hlt |].
        rewrite Forall_forall in *. intros q Hq.
        apply (string_compare_lt_trans p (row_page r) q Hlt), Habove, Hq.
      * constructor; assumption.
Qed.

Lemma key_le_page (a b : string * string) :
  key_le a b -> String.compare (fst a) (fst b) <> Gt.
Proof.
  intros [H | [H _]]; [congruence |]. rewrite H, string_compare_refl. discriminate.
Qed.

(** The text summary of a report lists the rows grouped by page: the page
    lines are in strictly ascending order, so every page that has a broken
    reference is named exactly once; and the summary is empty exactly when
    there is no broken reference. *)
Theorem text_summary_names_each_page_once :
  forall (listdir : list string) (extract_links : string -> list string)
         (outcome : string -> Outcome),
    exists report : Report,
      main listdir extract_links (fun url => Returned (outcome url)) = Returned report /\
      let lines := text_summary (report_rows report) in
      StronglySorted (fun a b => String.compare a b = Lt) (page_lines lines) /\
      NoDup (page_lines lines) /\
      (forall page,
          In page (page_lines lines) <->
          exists row, In row (report_rows report) /\ row_page row = page) /\
      (lines = [] <-> report_rows report = []).
Proof.
  intros listdir extract_links outcome.
  unfold main. rewrite check_all_links_returns.
  set (results := flat_map _ _).
  eexists. split; [reflexivity |]. cbn [report_rows].
  pose proof (sorted_rows_ordered results) as Hsorted.
  apply (StronglySorted_weaken _
           (fun r1 r2 => String.compare (row_page r1) (row_page r2) <> Gt))
    in Hsorted; [| intros r1 r2 H; apply key_le_page in H; exact H].
  set (rows := sorted row_leb results) in *.
  assert (Hinc : StronglySorted (fun a b => String.compare a b = Lt)
                   (page_lines (text_summary rows))).
  { destruct rows as [| r rest]; [constructor |].
    unfold text_summary. cbn [page_lines]. rewrite page_lines_print_rows. cbn [app].
    apply StronglySorted_inv in Hsorted. destruct Hsorted as [Hsorted Hall].
    destruct (page_lines_increase rest (row_page r) Hall Hsorted).
    constructor; assumption. }
  split; [exact Hinc |]. split; [| split].
  - clear - Hinc. induction Hinc as [| a l Hl IH Ha]; constructor; [| exact IH].
    intros Hin. rewrite Forall_forall in Ha. specialize (Ha a Hin).
    rewrite string_compare_refl in Ha. discriminate.
  - intros page.
    pose proof (page_lines_cover None rows page) as Hcover.
    destruct rows as [| r rest].
    + cbn. split; [intros [] | intros [row [[] _]]].
    + unfold text_summary. cbn [page_lines].
      split.
      * intros H. destruct (proj1 Hcover (or_introl H)) as [H' | H']; [exact H' | discriminate].
      * intros H. destruct (proj2 Hcover (or_introl H)) as [H' | H']; [exact H' | discriminate].
  - unfold text_summary. destruct rows; split; congruence.
Qed.

(** ** Progress lines *)

(** Printing does not change what the loop returns. *)
Lemma await_all_printing_result (lm : LinkMap) (total : nat)
    (tasks : list (string * Result Outcome)) (done : nat) (results : list Row)
    (printed : list (nat * nat)) :
  fst (await_all_printing lm total tasks done results printed) =
  await_all lm tasks results.
Proof.
  revert done results printed.
  induction tasks as [| [url task] tasks IH]; intros done results printed;
    [reflexivity |].
  cbn [await_all_printing await_all].
  destruct task as [[status reason] | e]; [| reflexivity].
  destruct (is_failure status); [| apply IH].
  destruct (lookup lm url) as [pages |]; [apply IH | reflexivity].
Qed.

Lemma await_all_printing_lines (lm : LinkMap) (total : nat)
    (outcome : string -> Outcome) (urls : list string) (done : nat)
    (results : list Row) (printed : list (nat * nat)) :
  (forall url, In url urls -> In url (keys lm)) ->
  snd (await_all_printing lm total
         (create_tasks (fun url => Returned (outcome url)) urls) done results printed) =
  printed ++
  map (fun d => (d, total))
      (filter (fun d => ((d mod 50 =? 0) || (d =? total))%nat)
              (seq (S done) (List.length urls))).
Proof.
  revert done results printed.
  induction urls as [| url urls IH]; intros done results printed Hkeys.
  - cbn. rewrite app_nil_r. reflexivity.
  - cbn [create_tasks map await_all_printing List.length seq filter].
    fold (create_tasks (fun url => Returned (outcome url)) urls).
    assert (Hrest : forall u, In u urls -> In u (keys lm))
      by (intros u Hu; apply Hkeys; right; exact Hu).
    destruct (outcome url) as [status reason].
    destruct (proj1 (lookup_keys lm url) (Hkeys url (or_introl eq_refl)))
      as [pages Hpages].
    rewrite Hpages.
    destruct (is_failure status);
      rewrite (IH _ _ _ Hrest);
      destruct ((S done mod 50 =? 0) || (S done =? total))%nat;
      cbn [map]; rewrite <- ?app_assoc; reflexivity.
Qed.

Lemma last_progress_line (total : nat) :
  total <> 0%nat ->
  last (map (fun d => (d, total))
            (filter (fun d => ((d mod 50 =? 0) || (d =? total))%nat) (seq 1 total)))
       (0%nat, 0%nat) = (total, total).
Proof.
  intros Hpos. destruct total as [| n]; [contradiction |].
  rewrite seq_S, filter_app, map_app. cbn [filter Nat.add].
  rewrite Nat.eqb_refl, orb_true_r. cbn [map]. apply last_last.
Qed.

(** Printing the progress does not change the result of [check_all_links];
    when every task returns, a progress line is printed after each 50th
    target and after the last one, in that order, and, unless there is no
    target at all, the last line printed reports all targets as checked. *)
Theorem progress_is_reported_every_50_and_at_the_end :
  forall (probe : string -> Result Outcome) (outcome : string -> Outcome)
         (link_map : LinkMap),
    let total := List.length (keys link_map) in
    let printed :=
      snd (check_all_links_printing (fun url => Returned (outcome url)) link_map) in
    fst (check_all_links_printing probe link_map) = check_all_links probe link_map /\
    printed =
      map (fun d => (d, total))
          (filter (fun d => ((d mod 50 =? 0) || (d =? total))%nat) (seq 1 total)) /\
    (forall d t, In (d, t) printed <->
       t = total /\ (1 <= d <= total)%nat /\ ((d mod 50 = 0)%nat \/ d = total)) /\
    (total <> 0%nat -> last printed (0%nat, 0%nat) = (total, total)).
Proof.
  intros probe outcome link_map total printed.
  assert (Hprinted : printed =
            map (fun d => (d, total))
                (filter (fun d => ((d mod 50 =? 0) || (d =? total))%nat)
                        (seq 1 total))).
  { unfold printed, check_all_links_printing.
    rewrite await_all_printing_lines by trivial. reflexivity. }
  split; [apply await_all_printing_result |].
  split; [exact Hprinted |]. split.
  - intros d t. rewrite Hprinted, in_map_iff. split.
    + intros [d' [[= <- <-] Hin]]. apply filter_In in Hin.
      destruct Hin as [Hseq Hcond]. apply in_seq in Hseq.
      apply orb_true_iff in Hcond. rewrite !Nat.eqb_eq in Hcond.
      split; [reflexivity |]. split; [lia | exact Hcond].
    + intros [-> [Hrange Hcond]]. exists d. split; [reflexivity |].
      apply filter_In. split; [apply in_seq; lia |].
      apply orb_true_iff. rewrite !Nat.eqb_eq. exact Hcond.
  - intros Hpos. rewrite Hprinted. apply last_progress_line, Hpos.
Qed.

Lemma negative_retry_count_sends_nothing :
  -1 < 0 /\
  check_one_url Scenario.net "http://good.example" (-1) =
    (Returned (None, "Unknown error"%string), [Acquire; Release]).
Proof.
  split; [lia |].
  apply (negative_retries_exhaust Scenario.net "http://good.example" (-1)). lia.
Defined.
